(** * csv-file-copy: a shallow embedding of [csv-file-copy.py]

    The script reads one column of a CSV file, removes duplicate values and
    copies every named file from a source directory into a target directory,
    counting four kinds of outcome.  The development below embeds

    - [is_long_path_available] and [check_path_length] (lines 8-31),
    - [main] (lines 34-118): validation of the three paths, extraction of the
      column through [csv.DictReader], [OrderedDict.fromkeys], the dispatch
      loop and the summary,

    over an interface [Runtime] for what the script imports ([os.path],
    [shutil.copy], [open], [csv.reader]), and gives one instance of that
    interface, a POSIX file system with [posixpath], on which concrete runs
    are evaluated.  [main] is first given on a standard output that takes
    every line, then ([main_on]) on a terminal whose writes can raise.

    Python [str] is [string]; [len] is [String.length].  A cell of a
    [DictReader] row is a [str] or [None], hence [option string]. *)

From Stdlib Require Import Ascii.
From stdpp Require Import base option list strings gmap pretty.

Open Scope string_scope.

(** ** Exceptions and the state of a run *)

(** The exceptions a run can end with.  [SystemExit] is what
    [parser.error] raises after it has written the usage text and the
    message to standard error: the exit status is 2. *)
Inductive exn :=
  | SystemExit (status : nat) (message : string)
  | KeyError (key : string)
  | TypeError
  | OSError (kind : string).

(** What the script uses of its imports.  [fs] is the state of the file
    system together with the working directory of the process.
    - [join], [abspath], [exists_] : [os.path.join], [os.path.abspath],
      [os.path.exists] (the last is [exists] in the source);
    - [open_read] : [open(path)] followed by reading the text;
    - [csv_reader] : the records [csv.reader] yields for that text;
    - [copy] : [shutil.copy(src, dst)]. *)
Class Runtime := {
  fs : Type;
  join : string → string → string;
  abspath : fs → string → string;
  exists_ : fs → string → bool;
  open_read : fs → string → exn + string;
  csv_reader : string → list (list string);
  copy : string → string → fs → exn + fs;
}.

(** [sys.platform] and the part of the Windows registry under
    [HKEY_LOCAL_MACHINE]: sub-key path, then value name, then the data of
    the value (a [REG_DWORD], which [winreg] returns as an [int]). *)
Record host := Host {
  platform : string;
  registry : gmap string (gmap string Z);
}.

(** The [argparse.Namespace] produced by [parser.parse_args()]. *)
Record args := Args {
  csv_file : string;
  source_dir : string;
  target_dir : string;
  column_name : string;
  quiet : bool;
  overwrite : bool;
  dry_run : bool;
}.

(** The four local counters of [main] (lines 75-78). *)
Record counters := Counters {
  copied : nat;
  not_found : nat;
  already_exist : nat;
  path_error : nat;
}.

(** The branch of the dispatch loop a filename ends in. *)
Inductive outcome := Copied | NotFound | AlreadyExists | PathError.

Global Instance outcome_eq_dec : EqDecision outcome.
Proof. solve_decision. Defined.

Global Instance exn_eq_dec : EqDecision exn.
Proof. solve_decision. Defined.

Definition set_quiet (q : bool) (a : args) : args :=
  Args (csv_file a) (source_dir a) (target_dir a) (column_name a)
       q (overwrite a) (dry_run a).

Definition set_dry_run (d : bool) (a : args) : args :=
  Args (csv_file a) (source_dir a) (target_dir a) (column_name a)
       (quiet a) (overwrite a) d.

(** ** Path-length policy (lines 8-31) *)

Definition FileSystem_key : string :=
  "SYSTEM\CurrentControlSet\Control\FileSystem".

(** [winreg.OpenKey] raises [FileNotFoundError] (an [OSError]) when the
    sub-key is absent; that call is outside the [try].
    [winreg.QueryValueEx] raises [FileNotFoundError] when the value is
    absent; that one is caught and leaves [long_paths = 0]. *)
Definition is_long_path_available (h : host) : exn + bool :=
  if decide (platform h = "win32") then
    match registry h !! FileSystem_key with
    | None => inl (OSError "FileNotFoundError")
    | Some key =>
        let long_paths : Z :=
          match key !! "LongPathsEnabled" with
          | Some v => v
          | None => 0%Z
          end in
        inr (bool_decide (long_paths ≠ 0%Z))
    end
  else inr true.

Definition check_path_length (h : host) (path : string) : exn + bool :=
  match is_long_path_available h with
  | inl e => inl e
  | inr available => inr (available || bool_decide (String.length path < 260))
  end.

(** ** [csv.DictReader] and [OrderedDict.fromkeys] (lines 65-73) *)

(** [dict(pairs)]: later pairs overwrite earlier ones. *)
Definition dict_of {V} (pairs : list (string * V)) : gmap string V :=
  fold_left (λ d kv, <[kv.1 := kv.2]> d) pairs ∅.

(** [DictReader.__next__] for one non-blank record: [dict(zip(fieldnames,
    row))]; a short row is padded with [restval = None]; the surplus of a
    long row goes under [restkey = None], which is not a [str] key and is
    left out of the string-keyed map. *)
Definition DictReader_row (fieldnames row : list string)
  : gmap string (option string) :=
  let d := dict_of (zip fieldnames (Some <$> row)) in
  let lf := length fieldnames in
  let lr := length row in
  if bool_decide (lf < lr) then d
  else if bool_decide (lr < lf) then
    fold_left (λ d key, <[key := None]> d) (drop lr fieldnames) d
  else d.

(** Iterating a [DictReader]: the first record is the header, blank
    records ([[]]) after it are skipped. *)
Definition DictReader (records : list (list string))
  : list (gmap string (option string)) :=
  match records with
  | [] => []
  | fieldnames :: rest =>
      DictReader_row fieldnames <$> filter (λ row, row ≠ []) rest
  end.

(** [row[key]]. *)
Definition getitem (row : gmap string (option string)) (key : string)
  : exn + option string :=
  match row !! key with
  | Some v => inr v
  | None => inl (KeyError key)
  end.

(** [[row[key] for row in reader]]: stops at the first [KeyError]. *)
Fixpoint column (key : string) (rows : list (gmap string (option string)))
  : exn + list (option string) :=
  match rows with
  | [] => inr []
  | row :: rows' =>
      match getitem row key with
      | inl e => inl e
      | inr v =>
          match column key rows' with
          | inl e => inl e
          | inr vs => inr (v :: vs)
          end
      end
  end.

(** An [OrderedDict] as its items in insertion order.  [d[k] = v] keeps
    the position of a key that is already there. *)
Fixpoint od_setitem {K V} `{EqDecision K} (k : K) (v : V) (d : list (K * V))
  : list (K * V) :=
  match d with
  | [] => [(k, v)]
  | (k', v') :: d' =>
      if decide (k = k') then (k', v) :: d' else (k', v') :: od_setitem k v d'
  end.

Definition OrderedDict_fromkeys {K} `{EqDecision K} (keys : list K)
  : list (K * unit) :=
  fold_left (λ d k, od_setitem k () d) keys [].

(** [list(OrderedDict.fromkeys(files))]. *)
Definition unique {K} `{EqDecision K} (files : list K) : list K :=
  (OrderedDict_fromkeys files).*1.

(** ** The state and exception monad of a run *)

Section Main.
Context `{Runtime}.

(** What a run can change or emit: the file system, the lines written to
    standard output, and (as a record of the effects) the arguments of
    every call to [shutil.copy], oldest first. *)
Record world := World {
  w_fs : fs;
  stdout : list string;
  copy_calls : list (string * string);
}.

(** A computation either raises or returns, and leaves a world behind in
    both cases. *)
Definition M (A : Type) : Type := world → (exn + A) * world.

Definition ret {A} (x : A) : M A := λ w, (inr x, w).

Definition raise {A} (e : exn) : M A := λ w, (inl e, w).

Definition bind {A B} (m : M A) (k : A → M B) : M B :=
  λ w, match m w with
       | (inl e, w') => (inl e, w')
       | (inr x, w') => k x w'
       end.

Notation "x <- m ;; k" := (bind m (λ x, k))
  (at level 100, m at next level, right associativity).
Notation "m ;;; k" := (bind m (λ _, k))
  (at level 100, right associativity).

Definition lift {A} (r : exn + A) : M A :=
  match r with
  | inl e => raise e
  | inr x => ret x
  end.

Definition when (b : bool) (m : M unit) : M unit :=
  if b then m else ret ().

(** [for x in xs: body(x)]. *)
Fixpoint for_each {A} (xs : list A) (body : A → M unit) : M unit :=
  match xs with
  | [] => ret ()
  | x :: xs' => body x ;;; for_each xs' body
  end.

(** [print(line)] on a standard output that takes every line; the
    standard output whose writes can raise is [print_on], below, and the
    two agree on the terminal [accepting]. *)
Definition print (line : string) : M unit :=
  λ w, (inr (), World (w_fs w) (stdout w ++ [line]) (copy_calls w)).

Definition fs_exists (path : string) : M bool :=
  λ w, (inr (exists_ (w_fs w) path), w).

Definition fs_abspath (path : string) : M string :=
  λ w, (inr (abspath (w_fs w) path), w).

Definition fs_open_read (path : string) : M string :=
  λ w, (open_read (w_fs w) path, w).

(** The call [copy(src, dst)] of line 93; a copy that raises leaves the
    file system as it was. *)
Definition fs_copy (src dst : string) : M unit :=
  λ w, match copy src dst (w_fs w) with
       | inl e => (inl e, World (w_fs w) (stdout w) (copy_calls w ++ [(src, dst)]))
       | inr fs' => (inr (), World fs' (stdout w) (copy_calls w ++ [(src, dst)]))
       end.

(** [parser.error(message)]. *)
Definition parser_error {A} (message : string) : M A :=
  raise (SystemExit 2 message).

(** ** [main] (lines 34-118) *)

(** [str(b)] for a [bool], as an f-string formats it. *)
Definition str_bool (b : bool) : string := if b then "True" else "False".

(** [s] between two double-quote characters. *)
Definition quoted (s : string) : string :=
  String "034"%char (s +:+ String "034"%char EmptyString).

(** Lines 52-59. *)
Definition print_configuration (a : args) : M unit :=
  when (negb (quiet a)) (
    print ("CSV file: " +:+ quoted (csv_file a)) ;;;
    print ("Column to read: " +:+ quoted (column_name a)) ;;;
    print ("Source directory: " +:+ quoted (source_dir a)) ;;;
    print ("Destination directory: " +:+ quoted (target_dir a)) ;;;
    print ("Overwrite existing: " +:+ str_bool (overwrite a)) ;;;
    print ("Dry Run: " +:+ str_bool (dry_run a)) ;;;
    print "").

(** Lines 61-63. *)
Definition check_paths (a : args) : M unit :=
  for_each [csv_file a; source_dir a; target_dir a] (λ file,
    present <- fs_exists file ;;
    if negb present then parser_error (quoted file +:+ " does not exist")
    else ret ()).

(** Lines 65-73.  [KeyError] is the only exception the [try] catches. *)
Definition read_files (a : args) : M (list (option string)) :=
  text <- fs_open_read (csv_file a) ;;
  match column (column_name a) (DictReader (csv_reader text)) with
  | inl (KeyError _) =>
      parser_error ("Column " +:+ quoted (column_name a) +:+ " does not exist")
  | inl e => raise e
  | inr files => ret (unique files)
  end.

(** The body of the loop of lines 79-106 for one element of [files].
    [join] raises [TypeError] on [None].  The result is the updated
    counters together with the branch taken. *)
Definition dispatch_file (a : args) (h : host) (file : option string)
    (c : counters) : M (counters * outcome) :=
  match file with
  | None => raise TypeError
  | Some file =>
      source_file_exists <- fs_exists (join (source_dir a) file) ;;
      skip <- (if negb (overwrite a) then fs_exists (join (target_dir a) file)
              else ret false) ;;
      if skip then
        when (negb (quiet a)) (print ("Skipping " +:+ quoted file)) ;;;
        ret (Counters (copied c) (not_found c) (already_exist c + 1)
                      (path_error c), AlreadyExists)
      else
        fits <- (if source_file_exists then
                  path <- fs_abspath (join (target_dir a) file) ;;
                  lift (check_path_length h path)
                else ret false) ;;
        if fits then
          when (negb (quiet a)) (print ("Copying " +:+ quoted file +:+ "...")) ;;;
          when (negb (dry_run a))
               (fs_copy (join (source_dir a) file) (target_dir a)) ;;;
          ret (Counters (copied c + 1) (not_found c) (already_exist c)
                        (path_error c), Copied)
        else if source_file_exists then
          when (negb (quiet a))
               (print ("Path length too long, skipping: " +:+ quoted file)) ;;;
          ret (Counters (copied c) (not_found c) (already_exist c)
                        (path_error c + 1), PathError)
        else
          when (negb (quiet a))
               (print ("File " +:+ quoted file +:+ " does not exist")) ;;;
          ret (Counters (copied c) (not_found c + 1) (already_exist c)
                        (path_error c), NotFound)
  end.

(** The loop of lines 79-106: the counters are threaded through, the
    branches taken are collected in order. *)
Fixpoint dispatch (a : args) (h : host) (files : list (option string))
    (c : counters) : M (counters * list outcome) :=
  match files with
  | [] => ret (c, [])
  | file :: files' =>
      r <- dispatch_file a h file c ;;
      rs <- dispatch a h files' r.1 ;;
      ret (rs.1, r.2 :: rs.2)
  end.

(** Lines 108-118. *)
Definition report (a : args) (c : counters) : M unit :=
  when (negb (quiet a)) (
    print "" ;;;
    print "Operation complete" ;;;
    print (pretty (copied c) +:+ " files copied") ;;;
    when (negb (bool_decide (not_found c = 0)))
         (print (pretty (not_found c) +:+ " files not found in source")) ;;;
    when (negb (bool_decide (already_exist c = 0)))
         (print (pretty (already_exist c) +:+ " files already exist in destination")) ;;;
    when (negb (bool_decide (path_error c = 0)))
         (print (pretty (path_error c) +:+
                 " files have path lengths that are too long for the destination"))).

(** [main] after [parse_args].  It returns what the locals [files],
    [copied], [not_found], [already_exist] and [path_error] hold at the end,
    and the branch taken for each element of [files]. *)
Definition main (a : args) (h : host)
  : M (list (option string) * counters * list outcome) :=
  print_configuration a ;;;
  check_paths a ;;;
  files <- read_files a ;;
  r <- dispatch a h files (Counters 0 0 0 0) ;;
  report a r.1 ;;;
  ret (files, r.1, r.2).

(** *** Vocabulary for reasoning about computations *)

(** [w] after the given lines have been printed. *)
Definition say (w : world) (lines : list string) : world :=
  World (w_fs w) (stdout w ++ lines) (copy_calls w).

(** Two worlds with the same file system and the same calls to
    [shutil.copy]; standard output is left free. *)
Definition same_effects (w1 w2 : world) : Prop :=
  w_fs w1 = w_fs w2 ∧ copy_calls w1 = copy_calls w2.

(** A computation that writes nothing to the file system. *)
Definition readonly {A} (m : M A) : Prop :=
  ∀ w, same_effects (m w).2 w.

(** A computation that only prints. *)
Definition output_only (m : M unit) : Prop :=
  ∀ w, (m w).1 = inr () ∧ same_effects (m w).2 w.

(** Two computations that, from worlds with the same effects, end with
    the same result and again the same effects. *)
Definition agree {A} (m1 m2 : M A) : Prop :=
  ∀ w1 w2, same_effects w1 w2 →
    (m1 w1).1 = (m2 w2).1 ∧ same_effects (m1 w1).2 (m2 w2).2.

End Main.

(** ** A standard output that can fail

    [print] raises what the write to [sys.stdout] raises
    ([UnicodeEncodeError] for text the stream cannot encode, [OSError] for
    a device that fails), and the [print] of lines 85, 91, 99 and 105
    stands before the copy and the counter of its branch.  A [terminal]
    tells, from the lines written so far and the line to write, whether
    the write raises.  The definitions of the previous section are the
    program on a terminal that accepts every line; the ones below are the
    same lines of the source on any terminal. *)

Definition terminal : Type := list string → string → option exn.

Definition accepting : terminal := λ _ _, None.

(** A terminal that takes [n] lines and then fails on every write. *)
Definition fails_after (n : nat) : terminal :=
  λ lines _,
    if bool_decide (length lines < n) then None else Some (OSError "EIO").

Section Main_on.
Context `{Runtime} (t : terminal).

Notation "x <- m ;; k" := (bind m (λ x, k))
  (at level 100, m at next level, right associativity).
Notation "m ;;; k" := (bind m (λ _, k))
  (at level 100, right associativity).

Definition print_on (line : string) : M unit :=
  λ w, match t (stdout w) line with
       | Some e => (inl e, w)
       | None => print line w
       end.

(** Lines 52-59. *)
Definition print_configuration_on (a : args) : M unit :=
  when (negb (quiet a)) (
    print_on ("CSV file: " +:+ quoted (csv_file a)) ;;;
    print_on ("Column to read: " +:+ quoted (column_name a)) ;;;
    print_on ("Source directory: " +:+ quoted (source_dir a)) ;;;
    print_on ("Destination directory: " +:+ quoted (target_dir a)) ;;;
    print_on ("Overwrite existing: " +:+ str_bool (overwrite a)) ;;;
    print_on ("Dry Run: " +:+ str_bool (dry_run a)) ;;;
    print_on "").

(** The body of the loop of lines 79-106. *)
Definition dispatch_file_on (a : args) (h : host) (file : option string)
    (c : counters) : M (counters * outcome) :=
  match file with
  | None => raise TypeError
  | Some file =>
      source_file_exists <- fs_exists (join (source_dir a) file) ;;
      skip <- (if negb (overwrite a) then fs_exists (join (target_dir a) file)
              else ret false) ;;
      if skip then
        when (negb (quiet a)) (print_on ("Skipping " +:+ quoted file)) ;;;
        ret (Counters (copied c) (not_found c) (already_exist c + 1)
                      (path_error c), AlreadyExists)
      else
        fits <- (if source_file_exists then
                  path <- fs_abspath (join (target_dir a) file) ;;
                  lift (check_path_length h path)
                else ret false) ;;
        if fits then
          when (negb (quiet a))
               (print_on ("Copying " +:+ quoted file +:+ "...")) ;;;
          when (negb (dry_run a))
               (fs_copy (join (source_dir a) file) (target_dir a)) ;;;
          ret (Counters (copied c + 1) (not_found c) (already_exist c)
                        (path_error c), Copied)
        else if source_file_exists then
          when (negb (quiet a))
               (print_on ("Path length too long, skipping: " +:+ quoted file)) ;;;
          ret (Counters (copied c) (not_found c) (already_exist c)
                        (path_error c + 1), PathError)
        else
          when (negb (quiet a))
               (print_on ("File " +:+ quoted file +:+ " does not exist")) ;;;
          ret (Counters (copied c) (not_found c + 1) (already_exist c)
                        (path_error c), NotFound)
  end.

(** The loop of lines 79-106. *)
Fixpoint dispatch_on (a : args) (h : host) (files : list (option string))
    (c : counters) : M (counters * list outcome) :=
  match files with
  | [] => ret (c, [])
  | file :: files' =>
      r <- dispatch_file_on a h file c ;;
      rs <- dispatch_on a h files' r.1 ;;
      ret (rs.1, r.2 :: rs.2)
  end.

(** Lines 108-118. *)
Definition report_on (a : args) (c : counters) : M unit :=
  when (negb (quiet a)) (
    print_on "" ;;;
    print_on "Operation complete" ;;;
    print_on (pretty (copied c) +:+ " files copied") ;;;
    when (negb (bool_decide (not_found c = 0)))
         (print_on (pretty (not_found c) +:+ " files not found in source")) ;;;
    when (negb (bool_decide (already_exist c = 0)))
         (print_on (pretty (already_exist c)
                    +:+ " files already exist in destination")) ;;;
    when (negb (bool_decide (path_error c = 0)))
         (print_on (pretty (path_error c) +:+
                    " files have path lengths that are too long for the destination"))).

(** [main] after [parse_args], on the terminal [t]. *)
Definition main_on (a : args) (h : host)
  : M (list (option string) * counters * list outcome) :=
  print_configuration_on a ;;;
  check_paths a ;;;
  files <- read_files a ;;
  r <- dispatch_on a h files (Counters 0 0 0 0) ;;
  report_on a r.1 ;;;
  ret (files, r.1, r.2).

(** *** Vocabulary for reasoning about a terminal that can fail *)

(** The computation [m], started in [w], has stopped at a write that
    raised: it ends with what the terminal answers to a line written
    after the lines that are on standard output at the end. *)
Definition stops_at_write {A} (m : M A) (w : world) : Prop :=
  ∃ e line, (m w).1 = inl e ∧ t (stdout (m w).2) line = Some e.

(** [loud] ends like [hushed], with the same result and the same
    effects, unless it stops at a write that raises. *)
Definition agree_unless {A} (loud hushed : M A) : Prop :=
  ∀ w1 w2, same_effects w1 w2 →
    ((loud w1).1 = (hushed w2).1 ∧ same_effects (loud w1).2 (hushed w2).2) ∨
    stops_at_write loud w1.

End Main_on.

(** ** A POSIX instance of the interface

    [posixpath] as CPython defines it, and a file system without links or
    permissions: a finite map from absolute paths, as lists of components,
    to nodes.  The root is the empty list and is always a directory. *)

Definition LF : string := String "010"%char "".

(** [s.startswith(c)] and [s.endswith(c)] for a one-character [c]. *)
Definition startswith (c : ascii) (s : string) : bool :=
  match s with
  | String x _ => bool_decide (x = c)
  | EmptyString => false
  end.

Fixpoint endswith (c : ascii) (s : string) : bool :=
  match s with
  | EmptyString => false
  | String x EmptyString => bool_decide (x = c)
  | String _ s' => endswith c s'
  end.

(** [c in s] for a one-character [c]. *)
Fixpoint contains (c : ascii) (s : string) : bool :=
  match s with
  | EmptyString => false
  | String x s' => bool_decide (x = c) || contains c s'
  end.

(** [s.split(c)] for a one-character [c]. *)
Fixpoint split_on (c : ascii) (s : string) : list string :=
  match s with
  | EmptyString => [""]
  | String x s' =>
      if decide (x = c) then "" :: split_on c s'
      else match split_on c s' with
           | piece :: pieces => String x piece :: pieces
           | [] => [String x ""]
           end
  end.

(** [c.join(pieces)]. *)
Fixpoint join_with (c : string) (pieces : list string) : string :=
  match pieces with
  | [] => ""
  | [piece] => piece
  | piece :: pieces' => piece +:+ c +:+ join_with c pieces'
  end.

Module posixpath.

Definition isabs (p : string) : bool := startswith "/" p.

Definition join (a b : string) : string :=
  if startswith "/" b then b
  else if bool_decide (a = "") || endswith "/" a then a +:+ b
  else a +:+ "/" +:+ b.

(** [p[p.rfind('/') + 1:]]. *)
Definition basename (p : string) : string :=
  List.last (split_on "/" p) "".

(** The loop of [normpath] over the components, [new_comps] being
    kept in reverse. *)
Fixpoint normpath_loop (initial_slashes : nat) (comps rev_new : list string)
  : list string :=
  match comps with
  | [] => rev rev_new
  | comp :: comps' =>
      if bool_decide (comp = "") || bool_decide (comp = ".") then
        normpath_loop initial_slashes comps' rev_new
      else if bool_decide (comp ≠ "..")
              || (bool_decide (initial_slashes = 0) && bool_decide (rev_new = []))
              || bool_decide (head rev_new = Some "..") then
        normpath_loop initial_slashes comps' (comp :: rev_new)
      else
        normpath_loop initial_slashes comps' (tail rev_new)
  end.

Definition normpath (path : string) : string :=
  if bool_decide (path = "") then "."
  else
    let initial_slashes :=
      if startswith "/" path then
        match path with
        | String _ (String "/" (String "/" _)) => 1
        | String _ (String "/" _) => 2
        | _ => 1
        end
      else 0 in
    let comps := normpath_loop initial_slashes (split_on "/" path) [] in
    let path' := String.concat "" (replicate initial_slashes "/")
                 +:+ join_with "/" comps in
    if bool_decide (path' = "") then "." else path'.

End posixpath.

Inductive node := File (data : string) | Dir.

Global Instance node_eq_dec : EqDecision node.
Proof. solve_decision. Defined.

Record posix_fs := PosixFs {
  nodes : gmap (list string) node;
  cwd : list string;
}.

Definition node_at (t : gmap (list string) node) (k : list string)
  : option node :=
  match k with
  | [] => Some Dir
  | _ => t !! k
  end.

(** One step of path resolution from directory [cur]. *)
Definition enter (cur : list string) (comp : string) : list string :=
  if bool_decide (comp = "") || bool_decide (comp = ".") then cur
  else if bool_decide (comp = "..") then removelast cur
  else cur ++ [comp].

(** Resolution of the components of a path: every component, the empty
    one a trailing slash leaves included, is looked up in a directory. *)
Fixpoint walk (t : gmap (list string) node) (cur : list string)
    (comps : list string) : option (list string) :=
  match comps with
  | [] => Some cur
  | comp :: comps' =>
      match node_at t cur with
      | Some Dir => walk t (enter cur comp) comps'
      | _ => None
      end
  end.

(** The absolute location a path names, when all but its last component
    exist as directories; the empty path names nothing. *)
Definition resolve (s : posix_fs) (p : string) : option (list string) :=
  if bool_decide (p = "") then None
  else walk (nodes s) (if posixpath.isabs p then [] else cwd s)
            (split_on "/" p).

Definition stat (s : posix_fs) (p : string) : option node :=
  match resolve s p with
  | Some k => node_at (nodes s) k
  | None => None
  end.

Definition posix_exists (s : posix_fs) (p : string) : bool :=
  bool_decide (is_Some (stat s p)).

Definition posix_isdir (s : posix_fs) (p : string) : bool :=
  bool_decide (stat s p = Some Dir).

Definition getcwd (s : posix_fs) : string := "/" +:+ join_with "/" (cwd s).

Definition posix_abspath (s : posix_fs) (p : string) : string :=
  posixpath.normpath
    (if posixpath.isabs p then p else posixpath.join (getcwd s) p).

(** [open(p)] for reading, then [read()]. *)
Definition posix_open_read (s : posix_fs) (p : string) : exn + string :=
  match stat s p with
  | Some (File data) => inr data
  | Some Dir => inl (OSError "IsADirectoryError")
  | None => inl (OSError "FileNotFoundError")
  end.

(** [open(p, 'wb')], writing [data] and closing. *)
Definition posix_write (s : posix_fs) (p : string) (data : string)
  : exn + posix_fs :=
  match resolve s p with
  | None => inl (OSError "FileNotFoundError")
  | Some k =>
      match node_at (nodes s) k with
      | Some Dir => inl (OSError "IsADirectoryError")
      | _ => inr (PosixFs (<[k := File data]> (nodes s)) (cwd s))
      end
  end.

(** [os.path.samefile] guarded as [shutil._samefile] does: false when
    either path cannot be stat'ed. *)
Definition posix_samefile (s : posix_fs) (p q : string) : bool :=
  match resolve s p, resolve s q with
  | Some k, Some k' =>
      bool_decide (k = k') && bool_decide (is_Some (node_at (nodes s) k))
  | _, _ => false
  end.

Definition shutil_copyfile (src dst : string) (s : posix_fs)
  : exn + posix_fs :=
  if posix_samefile s src dst then inl (OSError "SameFileError")
  else
    match posix_open_read s src with
    | inl e => inl e
    | inr data => posix_write s dst data
    end.

(** [shutil.copy]: into a directory the file keeps the base name of
    [src]. *)
Definition shutil_copy (src dst : string) (s : posix_fs) : exn + posix_fs :=
  let dst' :=
    if posix_isdir s dst then posixpath.join dst (posixpath.basename src)
    else dst in
  shutil_copyfile src dst' s.

(** [csv.reader] with the default dialect on text without quote
    characters or carriage returns: one record per line, fields separated
    by commas, an empty line giving the empty record. *)
Definition lines (text : string) : list string :=
  let pieces := split_on "010" text in
  if bool_decide (List.last pieces "" = "") then removelast pieces else pieces.

Definition posix_csv_reader (text : string) : list (list string) :=
  (λ line, if bool_decide (line = "") then [] else split_on "," line)
    <$> lines text.

Global Instance posix : Runtime := {|
  fs := posix_fs;
  join := posixpath.join;
  abspath := posix_abspath;
  exists_ := posix_exists;
  open_read := posix_open_read;
  csv_reader := posix_csv_reader;
  copy := shutil_copy;
|}.

(** ** Vocabulary of the properties *)

(** How many elements of [os] are the outcome [o]. *)
Definition occurrences (o : outcome) (os : list outcome) : nat :=
  length (filter (λ o', o' = o) os).

(** Position of the first occurrence of [x] in [l] ([l.index(x)]); the
    length of [l] when there is none. *)
Fixpoint first_index {K} `{EqDecision K} (x : K) (l : list K) : nat :=
  match l with
  | [] => 0
  | y :: l' => if decide (x = y) then 0 else S (first_index x l')
  end.

(** The branch of the loop body when [overwrite] is set, from the two
    checks that are left: the existence of the source file and, for an
    existing source, the result of the path-length check. *)
Definition by_source_and_length (source_file_exists fits : bool) : outcome :=
  if source_file_exists then (if fits then Copied else PathError)
  else NotFound.

Section Probes.
Context `{Runtime}.

(** Everything the loop body reads from the file system for [file]. *)
Definition probe (a : args) (s : fs) (file : string) : bool * bool * string :=
  (exists_ s (join (source_dir a) file),
   exists_ s (join (target_dir a) file),
   abspath s (join (target_dir a) file)).

(** Along the run without [--dry-run] from world [w] and counters [c],
    every filename is probed with the same result as on the file system
    [s]: no copy of the run changes what a later filename's checks see. *)
Fixpoint undisturbed (a : args) (h : host) (s : fs) (c : counters) (w : world)
    (files : list (option string)) : Prop :=
  match files with
  | [] => True
  | file :: files' =>
      match file with
      | Some f => probe a (w_fs w) f = probe a s f
      | None => True
      end ∧
      match dispatch_file (set_dry_run false a) h file c w with
      | (inr r, w') => undisturbed a h s r.1 w' files'
      | (inl _, _) => True
      end
  end.

End Probes.

(** ** Concrete sites *)

(** A site under the working directory [/work]: the directories [src]
    and [tgt], the CSV file [files.csv] with the given text, and further
    entries. *)
Definition site (csv_text : string) (entries : list (list string * node))
  : posix_fs :=
  PosixFs
    (list_to_map ([ (["work"], Dir);
                    (["work"; "src"], Dir);
                    (["work"; "tgt"], Dir);
                    (["work"; "files.csv"], File csv_text) ] ++ entries))
    ["work"].

Definition start (s : posix_fs) : world := World s [] [].

Definition text_of (lines : list string) : string :=
  String.concat "" ((λ l, l +:+ LF) <$> lines).

Definition linux : host := Host "linux" ∅.

Definition windows (FileSystem_values : gmap string Z) : host :=
  Host "win32" {[ FileSystem_key := FileSystem_values ]}.

Definition plain_args (o d : bool) : args :=
  Args "files.csv" "src" "tgt" "filename" false o d.

(** Rows [a.txt], [b.txt], [a.txt]; both files in [src], [tgt] empty. *)
Definition site_abab : posix_fs :=
  site (text_of ["filename"; "a.txt"; "b.txt"; "a.txt"])
       [ (["work"; "src"; "a.txt"], File "A");
         (["work"; "src"; "b.txt"], File "B") ].

(** As [site_abab], with an older [a.txt] already in [tgt]. *)
Definition site_taken : posix_fs :=
  site (text_of ["filename"; "a.txt"; "b.txt"; "a.txt"])
       [ (["work"; "src"; "a.txt"], File "A");
         (["work"; "src"; "b.txt"], File "B");
         (["work"; "tgt"; "a.txt"], File "old") ].

(** A header without the column [filename] and no data row. *)
Definition site_header_only : posix_fs :=
  site (text_of ["name"]) [ (["work"; "src"; "a.txt"], File "A") ].

(** One data row whose [filename] cell is empty. *)
Definition site_empty_cell : posix_fs :=
  site (text_of ["filename,note"; ",x"])
       [ (["work"; "src"; "a.txt"], File "A") ].

(** Two spellings of one file. *)
Definition site_two_spellings : posix_fs :=
  site (text_of ["filename"; "a.txt"; "./a.txt"])
       [ (["work"; "src"; "a.txt"], File "A") ].

(** A filename with a directory part; [tgt/sub] exists. *)
Definition site_subdir : posix_fs :=
  site (text_of ["filename"; "sub/a.txt"])
       [ (["work"; "src"; "sub"], Dir);
         (["work"; "src"; "sub"; "a.txt"], File "A");
         (["work"; "tgt"; "sub"], Dir) ].

(** ** Vocabulary of the further properties *)

(** The line the loop body prints for a filename, by branch (lines 85, 91,
    99 and 105). *)
Definition message (file : string) (o : outcome) : string :=
  match o with
  | AlreadyExists => "Skipping " +:+ quoted file
  | Copied => "Copying " +:+ quoted file +:+ "..."
  | PathError => "Path length too long, skipping: " +:+ quoted file
  | NotFound => "File " +:+ quoted file +:+ " does not exist"
  end.

Section Effects.
Context `{Runtime}.

(** The calls to [shutil.copy] of a run without [--dry-run], from the
    filenames and their branches: one call per copied filename. *)
Definition copies_of (a : args) (names : list string) (os : list outcome)
  : list (string * string) :=
  omap (λ fo : string * outcome,
          if decide (fo.2 = Copied)
          then Some (join (source_dir a) fo.1, target_dir a)
          else None)
       (zip names os).

(** A computation that prints nothing. *)
Definition silent {A} (m : M A) : Prop :=
  ∀ w, stdout (m w).2 = stdout w.

End Effects.

(** A data row with fewer cells than the header: the column [filename]
    is the second one, the row has one cell. *)
Definition site_short_row : posix_fs :=
  site (text_of ["id,filename"; "7"])
       [ (["work"; "src"; "a.txt"], File "A") ].

(** No directory [src]. *)
Definition site_no_source : posix_fs :=
  PosixFs
    (list_to_map [ (["work"], Dir);
                   (["work"; "tgt"], Dir);
                   (["work"; "files.csv"], File (text_of ["filename"; "a.txt"])) ])
    ["work"].

(** A header without the column [filename] and one data row. *)
Definition site_wrong_header : posix_fs :=
  site (text_of ["name"; "a.txt"]) [ (["work"; "src"; "a.txt"], File "A") ].

(** A file whose name has 260 characters. *)
Definition long_name : string := String.concat "" (replicate 260 "x").

Definition site_long_name : posix_fs :=
  site (text_of ["filename"; long_name])
       [ (["work"; "src"; long_name], File "A") ].

(** * Properties *)

(** A run whose result is known ends in some world. *)
Lemma run_inr `{Runtime} {A} (m : M A) (w : world) (x : A) :
  (m w).1 = inr x → ∃ w', m w = (inr x, w').
Proof. destruct (m w) as [r w']. simpl. intros ->. by exists w'. Qed.

(** ** The path-length policy *)

Lemma is_long_path_available_elsewhere (h : host) :
  platform h ≠ "win32" → is_long_path_available h = inr true.
Proof.
  intros Hp. unfold is_long_path_available.
  destruct (decide (platform h = "win32")); [contradiction | reflexivity].
Qed.

Lemma is_long_path_available_win32 (h : host) (key : gmap string Z) :
  platform h = "win32" →
  registry h !! FileSystem_key = Some key →
  is_long_path_available h =
    inr (bool_decide (default 0%Z (key !! "LongPathsEnabled") ≠ 0%Z)).
Proof.
  intros Hp Hk. unfold is_long_path_available.
  destruct (decide (platform h = "win32")); [| contradiction].
  rewrite Hk. destruct (key !! "LongPathsEnabled"); reflexivity.
Qed.




(** ** One pass of the loop body *)

Ltac unfold_body :=
  unfold dispatch_file, bind, fs_exists, fs_abspath, fs_copy, lift, when,
    print, ret, raise in *.

Section Loop_body.
Context `{Runtime}.

Lemma say_nil (w : world) : say w [] = w.
Proof. destruct w. unfold say. simpl. by rewrite app_nil_r. Qed.

(** C6: without [--overwrite], a filename whose path in the target
    directory exists is counted as already existing, in every state of the
    source directory and for every host and path length; nothing is copied
    and nothing is raised. *)
Theorem C6_existing_target_is_skipped (a : args) (h : host) (file : string)
    (c : counters) (w : world) :
  overwrite a = false →
  exists_ (w_fs w) (join (target_dir a) file) = true →
  dispatch_file a h (Some file) c w =
    (inr (Counters (copied c) (not_found c) (already_exist c + 1)
                   (path_error c), AlreadyExists),
     say w (if quiet a then [] else ["Skipping " +:+ quoted file])).
Proof.
  intros Hov Hex. unfold_body. rewrite Hov. simpl. rewrite Hex.
  destruct (quiet a); simpl; [by rewrite say_nil | reflexivity].
Qed.

(** C7: with [--overwrite], a filename is never counted as already
    existing, whatever the target directory holds.  What a pass of the
    loop body does is fixed by the existence of the source file and, for
    an existing source, by the path-length check of the destination: a
    missing source is counted as not found; an existing source whose
    destination fails the check is counted as a path error; an existing
    source whose destination passes is counted as copied, and copied by
    line 93 unless [--dry-run] is set.  In each case the counter of that
    branch alone is incremented and the line of that branch alone is
    printed; the pass raises only what the check or the copy raises. *)
Theorem C7_overwrite_never_skips (a : args) (h : host) (file : string)
    (c : counters) (w : world) :
  overwrite a = true →
  (exists_ (w_fs w) (join (source_dir a) file) = false →
   dispatch_file a h (Some file) c w =
     (inr (Counters (copied c) (not_found c + 1) (already_exist c)
                    (path_error c), NotFound),
      say w (if quiet a then [] else [message file NotFound]))) ∧
  (exists_ (w_fs w) (join (source_dir a) file) = true →
   check_path_length h (abspath (w_fs w) (join (target_dir a) file))
     = inr false →
   dispatch_file a h (Some file) c w =
     (inr (Counters (copied c) (not_found c) (already_exist c)
                    (path_error c + 1), PathError),
      say w (if quiet a then [] else [message file PathError]))) ∧
  (exists_ (w_fs w) (join (source_dir a) file) = true →
   check_path_length h (abspath (w_fs w) (join (target_dir a) file))
     = inr true →
   dry_run a = true →
   dispatch_file a h (Some file) c w =
     (inr (Counters (copied c + 1) (not_found c) (already_exist c)
                    (path_error c), Copied),
      say w (if quiet a then [] else [message file Copied]))) ∧
  (∀ s' : fs,
     exists_ (w_fs w) (join (source_dir a) file) = true →
     check_path_length h (abspath (w_fs w) (join (target_dir a) file))
       = inr true →
     dry_run a = false →
     copy (join (source_dir a) file) (target_dir a) (w_fs w) = inr s' →
     dispatch_file a h (Some file) c w =
       (inr (Counters (copied c + 1) (not_found c) (already_exist c)
                      (path_error c), Copied),
        World s'
          (stdout w ++ if quiet a then [] else [message file Copied])
          (copy_calls w ++ [(join (source_dir a) file, target_dir a)]))) ∧
  (∀ e : exn,
     exists_ (w_fs w) (join (source_dir a) file) = true →
     check_path_length h (abspath (w_fs w) (join (target_dir a) file))
       = inl e →
     dispatch_file a h (Some file) c w = (inl e, w)) ∧
  (∀ e : exn,
     exists_ (w_fs w) (join (source_dir a) file) = true →
     check_path_length h (abspath (w_fs w) (join (target_dir a) file))
       = inr true →
     dry_run a = false →
     copy (join (source_dir a) file) (target_dir a) (w_fs w) = inl e →
     dispatch_file a h (Some file) c w =
       (inl e,
        World (w_fs w)
          (stdout w ++ if quiet a then [] else [message file Copied])
          (copy_calls w ++ [(join (source_dir a) file, target_dir a)]))) ∧
  (∀ (c' : counters) (o : outcome),
     (dispatch_file a h (Some file) c w).1 = inr (c', o) →
     o ≠ AlreadyExists ∧ already_exist c' = already_exist c).
Proof.
  intros Hov.
  assert (∀ lines, say w (if quiet a then [] else lines) =
                   (if quiet a then w else say w lines)) as Hsay.
  { intros lines. destruct (quiet a); [apply say_nil | done]. }
  split; [| split; [| split; [| split; [| split; [| split]]]]].
  - intros Hsrc. rewrite Hsay. unfold_body. rewrite Hov, Hsrc. simpl.
    by destruct (quiet a).
  - intros Hsrc Hfits. rewrite Hsay. unfold_body. rewrite Hov, Hsrc. simpl.
    rewrite Hfits. simpl. by destruct (quiet a).
  - intros Hsrc Hfits Hdry. rewrite Hsay. unfold_body.
    rewrite Hov, Hsrc, Hdry. simpl. rewrite Hfits. simpl.
    by destruct (quiet a).
  - intros s' Hsrc Hfits Hdry Hcopy. unfold_body.
    rewrite Hov, Hsrc, Hdry. simpl. rewrite Hfits. simpl.
    destruct (quiet a); simpl; rewrite Hcopy; simpl; [| done].
    by rewrite app_nil_r.
  - intros e Hsrc Hfits. unfold_body. rewrite Hov, Hsrc. simpl.
    by rewrite Hfits.
  - intros e Hsrc Hfits Hdry Hcopy. unfold_body.
    rewrite Hov, Hsrc, Hdry. simpl. rewrite Hfits. simpl.
    destruct (quiet a); simpl; rewrite Hcopy; simpl; [| done].
    by rewrite app_nil_r.
  - intros c' o Hrun. apply run_inr in Hrun as [w' Hrun].
    unfold_body. rewrite Hov in Hrun. simpl in Hrun.
    repeat case_match; simplify_eq; by split.
Qed.

End Loop_body.

Lemma C6_witness :
  dispatch_file (plain_args false false) linux (Some "a.txt")
    (Counters 0 0 0 0) (start site_taken) =
  (inr (Counters 0 0 (0 + 1) 0, AlreadyExists),
   say (start site_taken) ["Skipping " +:+ quoted "a.txt"]).
Proof.
  apply (C6_existing_target_is_skipped (plain_args false false) linux "a.txt"
           (Counters 0 0 0 0) (start site_taken)); reflexivity.
Defined.

Lemma C7_witness :
  dispatch_file (plain_args true true) linux (Some "a.txt")
      (Counters 0 0 0 0) (start site_taken) =
    (inr (Counters (0 + 1) 0 0 0, Copied),
     say (start site_taken) [message "a.txt" Copied]) ∧
  dispatch_file (plain_args true false) linux (Some "c.txt")
      (Counters 0 0 0 0) (start site_taken) =
    (inr (Counters 0 (0 + 1) 0 0, NotFound),
     say (start site_taken) [message "c.txt" NotFound]) ∧
  dispatch_file (plain_args true false) linux (Some "a.txt")
      (Counters 0 0 0 0) (start site_taken) =
    (inr (Counters (0 + 1) 0 0 0, Copied),
     World (PosixFs (<[ ["work"; "tgt"; "a.txt"] := File "A" ]>
                       (nodes site_taken)) ["work"])
           [message "a.txt" Copied] [("src/a.txt", "tgt")]) ∧
  (∀ (c' : counters) (o : outcome),
     (dispatch_file (plain_args true false) linux (Some "a.txt")
        (Counters 0 0 0 0) (start site_taken)).1 = inr (c', o) →
     o ≠ AlreadyExists ∧ already_exist c' = already_exist (Counters 0 0 0 0)).
Proof.
  split; [| split; [| split]].
  - apply (C7_overwrite_never_skips (plain_args true true) linux "a.txt"
             (Counters 0 0 0 0) (start site_taken) eq_refl);
      vm_compute; reflexivity.
  - apply (C7_overwrite_never_skips (plain_args true false) linux "c.txt"
             (Counters 0 0 0 0) (start site_taken) eq_refl).
    vm_compute. reflexivity.
  - apply (proj1 (proj2 (proj2 (proj2
             (C7_overwrite_never_skips (plain_args true false) linux "a.txt"
                (Counters 0 0 0 0) (start site_taken) eq_refl))))
             (PosixFs (<[ ["work"; "tgt"; "a.txt"] := File "A" ]>
                         (nodes site_taken)) ["work"]));
      vm_compute; reflexivity.
  - apply (C7_overwrite_never_skips (plain_args true false) linux "a.txt"
             (Counters 0 0 0 0) (start site_taken) eq_refl).
Defined.

(** ** Reasoning about computations *)

Section Computations.
Context `{Runtime}.

Lemma same_effects_refl (w : world) : same_effects w w.
Proof. by split. Qed.

Lemma same_effects_sym (w1 w2 : world) :
  same_effects w1 w2 → same_effects w2 w1.
Proof. intros [? ?]. by split. Qed.

Lemma same_effects_trans (w1 w2 w3 : world) :
  same_effects w1 w2 → same_effects w2 w3 → same_effects w1 w3.
Proof. intros [? ?] [? ?]. split; congruence. Qed.

Lemma bind_inr {A B} (m : M A) (k : A → M B) (w w'' : world) (y : B) :
  bind m k w = (inr y, w'') →
  ∃ x w', m w = (inr x, w') ∧ k x w' = (inr y, w'').
Proof.
  unfold bind. destruct (m w) as [[e | x] w']; [discriminate |].
  intros Hk. by exists x, w'.
Qed.

Lemma readonly_ret {A} (x : A) : readonly (ret x).
Proof. intros w. apply same_effects_refl. Qed.

Lemma readonly_raise {A} (e : exn) : readonly (raise (A := A) e).
Proof. intros w. apply same_effects_refl. Qed.

Lemma readonly_bind {A B} (m : M A) (k : A → M B) :
  readonly m → (∀ x, readonly (k x)) → readonly (bind m k).
Proof.
  intros Hm Hk w. unfold bind. specialize (Hm w).
  destruct (m w) as [[e | x] w']; simpl in *; [done |].
  eapply same_effects_trans; [apply Hk | done].
Qed.

Lemma readonly_lift {A} (r : exn + A) : readonly (lift r).
Proof. destruct r; [apply readonly_raise | apply readonly_ret]. Qed.

Lemma readonly_print (line : string) : readonly (print line).
Proof. intros w. by split. Qed.

Lemma readonly_when (b : bool) (m : M unit) : readonly m → readonly (when b m).
Proof. destruct b; [done | intros _; apply readonly_ret]. Qed.

Lemma readonly_fs_exists (p : string) : readonly (fs_exists p).
Proof. intros w. apply same_effects_refl. Qed.

Lemma readonly_fs_abspath (p : string) : readonly (fs_abspath p).
Proof. intros w. apply same_effects_refl. Qed.

Lemma readonly_fs_open_read (p : string) : readonly (fs_open_read p).
Proof. intros w. apply same_effects_refl. Qed.

Lemma readonly_for_each {A} (xs : list A) (body : A → M unit) :
  (∀ x, readonly (body x)) → readonly (for_each xs body).
Proof.
  intros Hb. induction xs as [| x xs IH]; simpl.
  - apply readonly_ret.
  - apply readonly_bind; [apply Hb | intros _; apply IH].
Qed.

Lemma output_only_readonly (m : M unit) : output_only m → readonly m.
Proof. intros Hm w. apply Hm. Qed.

Lemma output_only_ret : output_only (ret ()).
Proof. intros w. split; [done | apply same_effects_refl]. Qed.

Lemma output_only_print (line : string) : output_only (print line).
Proof. intros w. by split. Qed.

Lemma output_only_bind (m : M unit) (k : unit → M unit) :
  output_only m → (∀ x, output_only (k x)) → output_only (bind m k).
Proof.
  intros Hm Hk w. unfold bind. destruct (Hm w) as [Hr Hw].
  destruct (m w) as [[e | []] w']; simpl in *; [discriminate |].
  destruct (Hk () w') as [Hr' Hw']. split; [done |].
  eapply same_effects_trans; done.
Qed.

Lemma output_only_when (b : bool) (m : M unit) :
  output_only m → output_only (when b m).
Proof. destruct b; [done | intros _; apply output_only_ret]. Qed.

Lemma output_only_inr (m : M unit) (w : world) :
  output_only m → ∃ w', m w = (inr (), w') ∧ same_effects w' w.
Proof.
  intros Hm. destruct (Hm w) as [Hr Hw].
  destruct (m w) as [r w']; simpl in *; subst. by exists w'.
Qed.

Lemma output_only_print_configuration (a : args) :
  output_only (print_configuration a).
Proof.
  unfold print_configuration.
  repeat first [ apply output_only_when | apply output_only_print
               | apply output_only_bind; [| intros _] ].
Qed.

Lemma output_only_report (a : args) (c : counters) : output_only (report a c).
Proof.
  unfold report.
  repeat first [ apply output_only_when | apply output_only_print
               | apply output_only_bind; [| intros _] ].
Qed.

Lemma readonly_check_paths (a : args) : readonly (check_paths a).
Proof.
  unfold check_paths. apply readonly_for_each. intros file.
  apply readonly_bind; [apply readonly_fs_exists |].
  intros present. destruct present; simpl;
    [apply readonly_ret | apply readonly_raise].
Qed.

Lemma readonly_read_files (a : args) : readonly (read_files a).
Proof.
  unfold read_files. apply readonly_bind; [apply readonly_fs_open_read |].
  intros text. repeat case_match;
    first [apply readonly_ret | apply readonly_raise].
Qed.

End Computations.

(** ** Removal of duplicates *)

Section Unique.
Context {K : Type} `{EqDecision K}.

Lemma od_setitem_keys {V} (k : K) (v : V) (d : list (K * V)) :
  (od_setitem k v d).*1 =
    if decide (k ∈ d.*1) then d.*1 else (d.*1 ++ [k])%list.
Proof.
  induction d as [| [k' v'] d IH].
  - reflexivity.
  - cbn [od_setitem]. rewrite fmap_cons. cbn [fst].
    destruct (decide (k = k')) as [-> | Hne]; rewrite fmap_cons; cbn [fst].
    + rewrite decide_True by left. done.
    + rewrite IH. destruct (decide (k ∈ d.*1)) as [Hin | Hnin].
      * rewrite decide_True by (by right). done.
      * rewrite decide_False; [done |].
        intros [? | ?]%elem_of_cons; done.
Qed.

Lemma unique_nil : unique ([] : list K) = [].
Proof. reflexivity. Qed.

Lemma unique_snoc (l : list K) (k : K) :
  unique (l ++ [k]) =
    if decide (k ∈ unique l) then unique l else (unique l ++ [k])%list.
Proof.
  unfold unique, OrderedDict_fromkeys. rewrite fold_left_app. simpl.
  apply od_setitem_keys.
Qed.

Lemma unique_elem_of (l : list K) (x : K) : x ∈ unique l ↔ x ∈ l.
Proof.
  induction l as [| k l IH] using rev_ind.
  - by rewrite unique_nil.
  - rewrite unique_snoc, elem_of_app, list_elem_of_singleton, <- IH.
    destruct (decide (k ∈ unique l)) as [Hin | Hnin].
    + split; [by left |]. intros [? | ->]; done.
    + by rewrite elem_of_app, list_elem_of_singleton.
Qed.

Lemma unique_NoDup (l : list K) : NoDup (unique l).
Proof.
  induction l as [| k l IH] using rev_ind.
  - rewrite unique_nil. constructor.
  - rewrite unique_snoc.
    destruct (decide (k ∈ unique l)) as [Hin | Hnin]; [done |].
    apply NoDup_app. split; [done |]. split.
    + intros x Hx ->%list_elem_of_singleton. done.
    + apply NoDup_singleton.
Qed.

Lemma first_index_lt (x : K) (l : list K) :
  x ∈ l → first_index x l < length l.
Proof.
  induction l as [| y l IH]; [by inversion 1 |].
  intros Hin. simpl. destruct (decide (x = y)) as [-> | Hne]; [lia |].
  apply elem_of_cons in Hin as [? | Hin]; [done |].
  specialize (IH Hin). lia.
Qed.

Lemma first_index_app_l (x : K) (l l' : list K) :
  x ∈ l → first_index x (l ++ l') = first_index x l.
Proof.
  induction l as [| y l IH]; [by inversion 1 |].
  intros Hin. simpl. destruct (decide (x = y)) as [-> | Hne]; [done |].
  apply elem_of_cons in Hin as [? | Hin]; [done |].
  by rewrite IH.
Qed.

Lemma first_index_fresh (x : K) (l l' : list K) :
  x ∉ l → first_index x (l ++ x :: l') = length l.
Proof.
  induction l as [| y l IH]; simpl.
  - intros _. by destruct (decide (x = x)).
  - intros Hnin. apply not_elem_of_cons in Hnin as [Hne Hnin].
    destruct (decide (x = y)); [done |]. by rewrite IH.
Qed.

(** The elements of [unique l] stand in the order of their first
    occurrences in [l]. *)
Lemma unique_first_occurrence_order (l : list K) (i j : nat) (x y : K) :
  unique l !! i = Some x → unique l !! j = Some y → i < j →
  first_index x l < first_index y l.
Proof.
  revert i j x y. induction l as [| k l IH] using rev_ind; intros i j x y.
  - rewrite unique_nil. by rewrite lookup_nil.
  - rewrite unique_snoc.
    destruct (decide (k ∈ unique l)) as [Hin | Hnin].
    + intros Hi Hj Hlt.
      assert (x ∈ l) by (apply unique_elem_of; by eapply list_elem_of_lookup_2).
      assert (y ∈ l) by (apply unique_elem_of; by eapply list_elem_of_lookup_2).
      rewrite !first_index_app_l by done. by eapply IH.
    + intros Hi Hj Hlt.
      assert (i < length (unique l)) as Hil.
      { apply lookup_lt_Some in Hi, Hj. rewrite length_app in *. simpl in *. lia. }
      rewrite lookup_app_l in Hi by done.
      assert (x ∈ l) as Hx
        by (apply unique_elem_of; by eapply list_elem_of_lookup_2).
      rewrite (first_index_app_l x) by done.
      destruct (decide (j < length (unique l))) as [Hjl | Hjl].
      * rewrite lookup_app_l in Hj by done.
        assert (y ∈ l)
          by (apply unique_elem_of; by eapply list_elem_of_lookup_2).
        rewrite first_index_app_l by done. by eapply IH.
      * rewrite lookup_app_r in Hj by lia.
        apply list_lookup_singleton_Some in Hj as [_ <-].
        rewrite first_index_fresh by (by rewrite <- unique_elem_of).
        by apply first_index_lt.
Qed.

End Unique.

(** ** Extraction of the filenames *)

Lemma column_Forall2 (key : string) (rows : list (gmap string (option string)))
    (raw : list (option string)) :
  column key rows = inr raw →
  Forall2 (λ row v, row !! key = Some v) rows raw.
Proof.
  revert raw. induction rows as [| row rows IH]; intros raw; simpl.
  - intros [= <-]. constructor.
  - unfold getitem. destruct (row !! key) as [v |] eqn:Hv; [| discriminate].
    destruct (column key rows) as [e | vs]; [discriminate |].
    intros [= <-]. constructor; [done | by apply IH].
Qed.

Section Extraction.
Context `{Runtime}.

Lemma read_files_inr (a : args) (w w' : world) (files : list (option string)) :
  read_files a w = (inr files, w') →
  w' = w ∧
  ∃ text raw,
    open_read (w_fs w) (csv_file a) = inr text ∧
    column (column_name a) (DictReader (csv_reader text)) = inr raw ∧
    files = unique raw.
Proof.
  unfold read_files, bind, fs_open_read, parser_error, raise, ret.
  destruct (open_read (w_fs w) (csv_file a)) as [e | text]; [discriminate |].
  destruct (column _ _) as [[] | raw] eqn:Hcol; try discriminate.
  intros [= <- <-]. split; [done |]. by exists text, raw.
Qed.

Lemma main_inr (a : args) (h : host) (w w' : world)
    (files : list (option string)) (c : counters) (os : list outcome) :
  main a h w = (inr (files, c, os), w') →
  ∃ wa wb wd,
    print_configuration a w = (inr (), wa) ∧
    check_paths a wa = (inr (), wb) ∧
    read_files a wb = (inr files, wb) ∧
    dispatch a h files (Counters 0 0 0 0) wb = (inr (c, os), wd) ∧
    report a c wd = (inr (), w').
Proof.
  unfold main. intros Hrun.
  apply bind_inr in Hrun as ([] & wa & Hconf & Hrun).
  apply bind_inr in Hrun as ([] & wb & Hpaths & Hrun).
  apply bind_inr in Hrun as (files' & wc & Hread & Hrun).
  apply bind_inr in Hrun as ([c' os'] & wd & Hloop & Hrun).
  apply bind_inr in Hrun as ([] & we & Hrep & Hrun).
  unfold ret in Hrun. simpl in Hrun, Hrep. injection Hrun as <- <- <- <-.
  destruct (read_files_inr _ _ _ _ Hread) as [-> _].
  by exists wa, wb, wd.
Qed.

Lemma main_intro (a : args) (h : host) (w wa wb wd we : world)
    (files : list (option string)) (c : counters) (os : list outcome) :
  print_configuration a w = (inr (), wa) →
  check_paths a wa = (inr (), wb) →
  read_files a wb = (inr files, wb) →
  dispatch a h files (Counters 0 0 0 0) wb = (inr (c, os), wd) →
  report a c wd = (inr (), we) →
  main a h w = (inr (files, c, os), we).
Proof.
  intros Hconf Hpaths Hread Hloop Hrep. unfold main, bind.
  rewrite Hconf, Hpaths, Hread, Hloop. simpl. by rewrite Hrep.
Qed.

Lemma before_the_loop (a : args) (w wa wb : world) :
  print_configuration a w = (inr (), wa) →
  check_paths a wa = (inr (), wb) →
  same_effects wb w.
Proof.
  intros Hconf Hpaths. eapply same_effects_trans.
  - pose proof (readonly_check_paths a wa) as Hp. by rewrite Hpaths in Hp.
  - pose proof (output_only_print_configuration a w) as [_ Hp].
    by rewrite Hconf in Hp.
Qed.

(** C2: when the extraction step returns, its result holds every value of
    the configured column exactly once, and the values stand in the order
    of their first occurrences among the rows. *)
Theorem C2_extraction_removes_duplicates (a : args) (w : world)
    (files : list (option string)) :
  (read_files a w).1 = inr files →
  ∃ (text : string) (raw : list (option string)),
    open_read (w_fs w) (csv_file a) = inr text ∧
    Forall2 (λ row v, row !! column_name a = Some v)
            (DictReader (csv_reader text)) raw ∧
    NoDup files ∧
    (∀ x, x ∈ files ↔ x ∈ raw) ∧
    (∀ i j x y, files !! i = Some x → files !! j = Some y → i < j →
                first_index x raw < first_index y raw).
Proof.
  intros Hread. apply run_inr in Hread as [w' Hread].
  destruct (read_files_inr _ _ _ _ Hread) as (_ & text & raw & Ht & Hc & ->).
  exists text, raw. split; [done |]. split; [by apply column_Forall2 |].
  split; [apply unique_NoDup |]. split; [apply unique_elem_of |].
  apply unique_first_occurrence_order.
Qed.

End Extraction.

Lemma C2_witness :
  ∃ (text : string) (raw : list (option string)),
    open_read (w_fs (start site_abab)) "files.csv" = inr text ∧
    Forall2 (λ row v, row !! "filename" = Some v)
            (DictReader (csv_reader text)) raw ∧
    NoDup [Some "a.txt"; Some "b.txt"] ∧
    (∀ x, x ∈ [Some "a.txt"; Some "b.txt"] ↔ x ∈ raw) ∧
    (∀ i j x y, [Some "a.txt"; Some "b.txt"] !! i = Some x →
                [Some "a.txt"; Some "b.txt"] !! j = Some y → i < j →
                first_index x raw < first_index y raw).
Proof.
  apply (C2_extraction_removes_duplicates (plain_args false false)
           (start site_abab)).
  vm_compute. reflexivity.
Defined.

(** ** The counters *)

Lemma occurrences_cons (o o' : outcome) (os : list outcome) :
  occurrences o (o' :: os) = occurrences o [o'] + occurrences o os.
Proof.
  unfold occurrences. rewrite !filter_cons, filter_nil.
  destruct (decide (o' = o)); reflexivity.
Qed.

Lemma occurrences_total (os : list outcome) :
  occurrences Copied os + occurrences NotFound os
  + occurrences AlreadyExists os + occurrences PathError os = length os.
Proof.
  induction os as [| o os IH]; [reflexivity |].
  rewrite (occurrences_cons Copied), (occurrences_cons NotFound),
    (occurrences_cons AlreadyExists), (occurrences_cons PathError).
  simpl. destruct o; vm_compute (occurrences _ [_]); lia.
Qed.

Section Counting.
Context `{Runtime}.

(** A pass of the loop body that returns has added one to the counter of
    the branch it reports and left the other three alone. *)
Lemma dispatch_file_counts (a : args) (h : host) (file : option string)
    (c c' : counters) (o : outcome) (w w' : world) :
  dispatch_file a h file c w = (inr (c', o), w') →
  copied c' = copied c + occurrences Copied [o] ∧
  not_found c' = not_found c + occurrences NotFound [o] ∧
  already_exist c' = already_exist c + occurrences AlreadyExists [o] ∧
  path_error c' = path_error c + occurrences PathError [o].
Proof.
  intros Hrun. destruct file as [file |]; unfold_body; [| discriminate].
  repeat case_match; simplify_eq; simpl; vm_compute (occurrences _ [_]);
    repeat split; lia.
Qed.

Lemma dispatch_counts (a : args) (h : host) (files : list (option string))
    (c c' : counters) (os : list outcome) (w w' : world) :
  dispatch a h files c w = (inr (c', os), w') →
  length os = length files ∧
  copied c' = copied c + occurrences Copied os ∧
  not_found c' = not_found c + occurrences NotFound os ∧
  already_exist c' = already_exist c + occurrences AlreadyExists os ∧
  path_error c' = path_error c + occurrences PathError os.
Proof.
  revert c c' os w w'.
  induction files as [| file files IH]; intros c c' os w w'; simpl.
  - unfold ret. intros [= <- <- <-]. vm_compute (occurrences _ []).
    repeat split; lia.
  - intros Hrun.
    apply bind_inr in Hrun as ([c1 o] & w1 & Hstep & Hrun).
    apply bind_inr in Hrun as ([c2 os2] & w2 & Hrest & Hrun).
    unfold ret in Hrun. simpl in Hrun. injection Hrun as <- <- <-.
    apply dispatch_file_counts in Hstep as (? & ? & ? & ?).
    apply IH in Hrest as (? & ? & ? & ? & ?). simpl in *.
    rewrite (occurrences_cons Copied), (occurrences_cons NotFound),
      (occurrences_cons AlreadyExists), (occurrences_cons PathError).
    repeat split; lia.
Qed.

(** C1: when a run gets through the dispatch loop, [files] is the list of
    values read under the configured column from the rows of the CSV file,
    without its duplicates; every element of it has taken exactly one
    branch, each counter is the number of elements that took its branch,
    and the four counters add up to the number of unique values of the
    column. *)
Theorem C1_counters_partition_filenames (a : args) (h : host) (w : world)
    (files : list (option string)) (c : counters) (os : list outcome) :
  (main a h w).1 = inr (files, c, os) →
  (∃ (text : string) (raw : list (option string)),
     open_read (w_fs w) (csv_file a) = inr text ∧
     Forall2 (λ row v, row !! column_name a = Some v)
             (DictReader (csv_reader text)) raw ∧
     files = unique raw ∧
     copied c + not_found c + already_exist c + path_error c
       = length (unique raw)) ∧
  NoDup files ∧
  length os = length files ∧
  copied c = occurrences Copied os ∧
  not_found c = occurrences NotFound os ∧
  already_exist c = occurrences AlreadyExists os ∧
  path_error c = occurrences PathError os ∧
  copied c + not_found c + already_exist c + path_error c = length files.
Proof.
  intros Hrun. apply run_inr in Hrun as [w' Hrun].
  apply main_inr in Hrun
    as (wa & wb & wd & Hconf & Hpaths & Hread & Hloop & _).
  destruct (before_the_loop _ _ _ _ Hconf Hpaths) as [Hfs _].
  apply read_files_inr in Hread as (_ & text & raw & Hopen & Hraw & ->).
  apply dispatch_counts in Hloop as (Hlen & Hc & Hn & Ha & Hp).
  simpl in *. pose proof (occurrences_total os).
  split.
  { exists text, raw. rewrite <- Hfs.
    split; [done |]. split; [by apply column_Forall2 |]. split; [done | lia]. }
  split; [apply unique_NoDup |]. repeat split; lia.
Qed.

End Counting.

Lemma C1_witness :
  (∃ (text : string) (raw : list (option string)),
     open_read (w_fs (start site_taken)) "files.csv" = inr text ∧
     Forall2 (λ row v, row !! "filename" = Some v)
             (DictReader (csv_reader text)) raw ∧
     [Some "a.txt"; Some "b.txt"] = unique raw ∧
     copied (Counters 1 0 1 0) + not_found (Counters 1 0 1 0)
     + already_exist (Counters 1 0 1 0) + path_error (Counters 1 0 1 0)
       = length (unique raw)) ∧
  NoDup [Some "a.txt"; Some "b.txt"] ∧
  length [AlreadyExists; Copied] = length [Some "a.txt"; Some "b.txt"] ∧
  copied (Counters 1 0 1 0) = occurrences Copied [AlreadyExists; Copied] ∧
  not_found (Counters 1 0 1 0) = occurrences NotFound [AlreadyExists; Copied] ∧
  already_exist (Counters 1 0 1 0)
    = occurrences AlreadyExists [AlreadyExists; Copied] ∧
  path_error (Counters 1 0 1 0)
    = occurrences PathError [AlreadyExists; Copied] ∧
  copied (Counters 1 0 1 0) + not_found (Counters 1 0 1 0)
  + already_exist (Counters 1 0 1 0) + path_error (Counters 1 0 1 0)
    = length [Some "a.txt"; Some "b.txt"].
Proof.
  apply (C1_counters_partition_filenames (plain_args false false) linux
           (start site_taken) [Some "a.txt"; Some "b.txt"]
           (Counters 1 0 1 0) [AlreadyExists; Copied]).
  vm_compute. reflexivity.
Defined.

(** ** Independence from standard output and from [--quiet] *)

Section Quiet.
Context `{Runtime}.

Lemma agree_ret {A} (x : A) : agree (ret x) (ret x).
Proof. intros w1 w2 Hw. by split. Qed.

Lemma agree_raise {A} (e : exn) : agree (raise (A := A) e) (raise e).
Proof. intros w1 w2 Hw. by split. Qed.

Lemma agree_bind {A B} (m1 m2 : M A) (k1 k2 : A → M B) :
  agree m1 m2 → (∀ x, agree (k1 x) (k2 x)) → agree (bind m1 k1) (bind m2 k2).
Proof.
  intros Hm Hk w1 w2 Hw. unfold bind. destruct (Hm w1 w2 Hw) as [Hr Hw'].
  destruct (m1 w1) as [[e1 | x1] w1'], (m2 w2) as [[e2 | x2] w2'];
    simpl in *; simplify_eq; [by split |].
  by apply Hk.
Qed.

Lemma agree_output (m1 m2 : M unit) :
  output_only m1 → output_only m2 → agree m1 m2.
Proof.
  intros H1 H2 w1 w2 Hw.
  destruct (H1 w1) as [-> Hw1], (H2 w2) as [-> Hw2]. split; [done |].
  eapply same_effects_trans; [done |].
  eapply same_effects_trans; [done |]. by apply same_effects_sym.
Qed.

Lemma agree_lift {A} (r : exn + A) : agree (lift r) (lift r).
Proof. destruct r; [apply agree_raise | apply agree_ret]. Qed.

Lemma agree_fs_exists (p : string) : agree (fs_exists p) (fs_exists p).
Proof. intros w1 w2 [Hfs Hc]. unfold fs_exists. simpl. by rewrite Hfs. Qed.

Lemma agree_fs_abspath (p : string) : agree (fs_abspath p) (fs_abspath p).
Proof. intros w1 w2 [Hfs Hc]. unfold fs_abspath. simpl. by rewrite Hfs. Qed.

Lemma agree_fs_open_read (p : string) :
  agree (fs_open_read p) (fs_open_read p).
Proof. intros w1 w2 [Hfs Hc]. unfold fs_open_read. simpl. by rewrite Hfs. Qed.

Lemma agree_fs_copy (src dst : string) :
  agree (fs_copy src dst) (fs_copy src dst).
Proof.
  intros w1 w2 [Hfs Hc]. unfold fs_copy. rewrite Hfs, Hc.
  destruct (copy src dst (w_fs w2)); by split.
Qed.

Lemma agree_when (b : bool) (m1 m2 : M unit) :
  agree m1 m2 → agree (when b m1) (when b m2).
Proof. destruct b; [done | intros _; apply agree_ret]. Qed.

Ltac agree_step :=
  first
    [ apply agree_ret | apply agree_raise | apply agree_lift
    | apply agree_fs_exists | apply agree_fs_abspath
    | apply agree_fs_open_read | apply agree_fs_copy
    | apply agree_output;
        [ apply output_only_when, output_only_print
        | apply output_only_when, output_only_print ]
    | apply agree_when
    | apply agree_bind; [| intros ?]
    | match goal with
      | |- agree (if ?b then _ else _) (if ?b then _ else _) => destruct b
      end ].

Lemma dispatch_file_quiet (a : args) (q1 q2 : bool) (h : host)
    (file : option string) (c : counters) :
  agree (dispatch_file (set_quiet q1 a) h file c)
        (dispatch_file (set_quiet q2 a) h file c).
Proof.
  destruct file as [file |]; [| apply agree_raise].
  unfold dispatch_file. simpl. repeat agree_step.
Qed.

Lemma dispatch_quiet (a : args) (q1 q2 : bool) (h : host)
    (files : list (option string)) (c : counters) :
  agree (dispatch (set_quiet q1 a) h files c)
        (dispatch (set_quiet q2 a) h files c).
Proof.
  revert c. induction files as [| file files IH]; intros c; simpl.
  - apply agree_ret.
  - apply agree_bind; [apply dispatch_file_quiet |]. intros r.
    apply agree_bind; [apply IH |]. intros rs. apply agree_ret.
Qed.

Lemma check_paths_quiet (a : args) (q1 q2 : bool) :
  agree (check_paths (set_quiet q1 a)) (check_paths (set_quiet q2 a)).
Proof.
  unfold check_paths, parser_error. simpl. repeat agree_step.
Qed.

Lemma read_files_quiet (a : args) (q1 q2 : bool) :
  agree (read_files (set_quiet q1 a)) (read_files (set_quiet q2 a)).
Proof.
  unfold read_files, parser_error. simpl.
  apply agree_bind; [apply agree_fs_open_read |]. intros text.
  repeat case_match; first [apply agree_ret | apply agree_raise].
Qed.

Lemma main_quiet (a : args) (q1 q2 : bool) (h : host) :
  agree (main (set_quiet q1 a) h) (main (set_quiet q2 a) h).
Proof.
  unfold main.
  apply agree_bind;
    [apply agree_output; apply output_only_print_configuration |].
  intros _. apply agree_bind; [apply check_paths_quiet |].
  intros _. apply agree_bind; [apply read_files_quiet |].
  intros files. apply agree_bind; [apply dispatch_quiet |].
  intros r. apply agree_bind;
    [apply agree_output; apply output_only_report |].
  intros _. apply agree_ret.
Qed.

End Quiet.

(** ** A terminal that can fail, and [--quiet] *)

Section Failing_output.
Context `{Runtime} (t : terminal).

Lemma agree_unless_of_agree {A} (m1 m2 : M A) :
  agree m1 m2 → agree_unless t m1 m2.
Proof. intros Hm w1 w2 Hw. left. by apply Hm. Qed.

Lemma agree_unless_bind {A B} (m1 m2 : M A) (k1 k2 : A → M B) :
  agree_unless t m1 m2 → (∀ x, agree_unless t (k1 x) (k2 x)) →
  agree_unless t (bind m1 k1) (bind m2 k2).
Proof.
  intros Hm Hk w1 w2 Hw. unfold stops_at_write, bind.
  destruct (Hm w1 w2 Hw) as [[Hr Hw'] | (e & line & Hr & He)].
  - destruct (m1 w1) as [[e1 | x1] w1'], (m2 w2) as [[e2 | x2] w2'];
      simpl in *; simplify_eq; [left; by split |].
    destruct (Hk x2 w1' w2' Hw') as [Hagree | (e & line & Hr' & He)];
      [by left |].
    right. by exists e, line.
  - right. exists e, line.
    destruct (m1 w1) as [[e1 | x1] w1']; simpl in *; by simplify_eq.
Qed.

(** A write either takes the line, as on a terminal that accepts
    everything, or raises. *)
Lemma agree_unless_print (line : string) :
  agree_unless t (print_on t line) (print line).
Proof.
  intros w1 w2 [Hfs Hc]. unfold stops_at_write, print_on.
  destruct (t (stdout w1) line) as [e |] eqn:Hwrite.
  - right. exists e, line. simpl. by split.
  - left. by split.
Qed.

Lemma agree_unless_when (b : bool) (m1 m2 : M unit) :
  agree_unless t m1 m2 → agree_unless t (when b m1) (when b m2).
Proof.
  destruct b; [done |]. intros _. apply agree_unless_of_agree, agree_ret.
Qed.

Ltac unless_step :=
  first
    [ apply agree_unless_when, agree_unless_print
    | apply agree_unless_print
    | apply agree_unless_of_agree;
        first [ apply agree_ret | apply agree_raise | apply agree_lift
              | apply agree_fs_exists | apply agree_fs_abspath
              | apply agree_fs_open_read
              | apply agree_when, agree_fs_copy ]
    | apply agree_unless_bind; [| intros ?]
    | match goal with
      | |- agree_unless _ (if ?b then _ else _) (if ?b then _ else _) =>
          destruct b
      | |- agree_unless _ (when ?b _) (when ?b _) => destruct b; simpl
      end ].

Lemma print_configuration_on_unless (a : args) :
  agree_unless t (print_configuration_on t a) (print_configuration a).
Proof.
  unfold print_configuration_on, print_configuration. repeat unless_step.
Qed.

Lemma report_on_unless (a : args) (c : counters) :
  agree_unless t (report_on t a c) (report a c).
Proof. unfold report_on, report. repeat unless_step. Qed.

Lemma dispatch_file_on_unless (a : args) (h : host) (file : option string)
    (c : counters) :
  agree_unless t (dispatch_file_on t a h file c) (dispatch_file a h file c).
Proof.
  destruct file as [file |];
    [| apply agree_unless_of_agree, agree_raise].
  unfold dispatch_file_on, dispatch_file. repeat unless_step.
Qed.

Lemma dispatch_on_unless (a : args) (h : host) (files : list (option string))
    (c : counters) :
  agree_unless t (dispatch_on t a h files c) (dispatch a h files c).
Proof.
  revert c. induction files as [| file files IH]; intros c; simpl.
  - apply agree_unless_of_agree, agree_ret.
  - apply agree_unless_bind; [apply dispatch_file_on_unless |]. intros r.
    apply agree_unless_bind; [apply IH |]. intros rs.
    apply agree_unless_of_agree, agree_ret.
Qed.

(** On any terminal a run ends as on one that accepts every line, with
    the same result, file system and copies, unless a write raises. *)
Lemma main_on_unless (a : args) (h : host) :
  agree_unless t (main_on t a h) (main a h).
Proof.
  unfold main_on, main.
  apply agree_unless_bind; [apply print_configuration_on_unless |].
  intros _. apply agree_unless_bind.
  { apply agree_unless_of_agree. exact (check_paths_quiet a true true). }
  intros _. apply agree_unless_bind.
  { apply agree_unless_of_agree. exact (read_files_quiet a true true). }
  intros files. apply agree_unless_bind; [apply dispatch_on_unless |].
  intros r. apply agree_unless_bind; [apply report_on_unless |].
  intros _. apply agree_unless_of_agree, agree_ret.
Qed.

(** With [--quiet] the terminal is never written to. *)
Lemma dispatch_file_on_quiet (a : args) (h : host) (file : option string)
    (c : counters) (w : world) :
  quiet a = true → dispatch_file_on t a h file c w = dispatch_file a h file c w.
Proof.
  intros Hq. destruct file as [file |]; [| done].
  unfold dispatch_file_on, dispatch_file. rewrite Hq. reflexivity.
Qed.

Lemma dispatch_on_quiet (a : args) (h : host) (files : list (option string))
    (c : counters) (w : world) :
  quiet a = true → dispatch_on t a h files c w = dispatch a h files c w.
Proof.
  intros Hq. revert c w. induction files as [| file files IH]; intros c w;
    [done |].
  simpl. unfold bind. rewrite dispatch_file_on_quiet by done.
  destruct (dispatch_file a h file c w) as [[e | r] w1]; [done |].
  by rewrite IH.
Qed.

Lemma main_on_quiet (a : args) (h : host) (w : world) :
  quiet a = true → main_on t a h w = main a h w.
Proof.
  intros Hq. unfold main_on, main, bind.
  assert (print_configuration_on t a w = print_configuration a w) as ->.
  { unfold print_configuration_on, print_configuration. by rewrite Hq. }
  destruct (print_configuration a w) as [[e | []] wa]; [done |].
  destruct (check_paths a wa) as [[e | []] wb]; [done |].
  destruct (read_files a wb) as [[e | files] wc]; [done |].
  rewrite dispatch_on_quiet by done.
  destruct (dispatch a h files (Counters 0 0 0 0) wc) as [[e | r] wd];
    [done |].
  assert (report_on t a r.1 wd = report a r.1 wd) as ->; [| done].
  unfold report_on, report. by rewrite Hq.
Qed.

(** C10, as the code has it: the run with [--quiet] writes nothing to
    standard output and is the same on every terminal; the run without
    [--quiet] ends like it, with the same exit (the same exception, or the
    same list of filenames, the same branch for each of them and the same
    four counters), the same file system and the same calls to
    [shutil.copy], unless one of its writes to standard output raises:
    then it ends there, with the exception of that write. *)
Theorem C10_quiet_matters_only_through_output (a : args) (h : host)
    (w : world) :
  main_on t (set_quiet true a) h w = main (set_quiet true a) h w ∧
  (((main_on t (set_quiet false a) h w).1
      = (main_on t (set_quiet true a) h w).1 ∧
    w_fs (main_on t (set_quiet false a) h w).2
      = w_fs (main_on t (set_quiet true a) h w).2 ∧
    copy_calls (main_on t (set_quiet false a) h w).2
      = copy_calls (main_on t (set_quiet true a) h w).2) ∨
   (∃ e line,
      (main_on t (set_quiet false a) h w).1 = inl e ∧
      t (stdout (main_on t (set_quiet false a) h w).2) line = Some e)).
Proof.
  assert (main_on t (set_quiet true a) h w = main (set_quiet true a) h w)
    as Hquiet by (by apply main_on_quiet).
  split; [done |]. rewrite Hquiet.
  destruct (main_on_unless (set_quiet false a) h w w (same_effects_refl w))
    as [[Hr [Hfs Hc]] | Hfail]; [| by right].
  destruct (main_quiet a false true h w w (same_effects_refl w))
    as [Hr' [Hfs' Hc']].
  left. split; [congruence |]. split; congruence.
Qed.

End Failing_output.

(** The program of the first section is the program on a terminal that
    accepts every line. *)
Lemma main_on_accepting `{Runtime} (a : args) (h : host) :
  main_on accepting a h = main a h.
Proof. reflexivity. Qed.

Lemma C10_counterexample :
  (main_on (fails_after 7) (set_quiet false (plain_args false false)) linux
           (start site_abab)).1 = inl (OSError "EIO") ∧
  copy_calls
    (main_on (fails_after 7) (set_quiet false (plain_args false false)) linux
             (start site_abab)).2 = [] ∧
  (main_on (fails_after 7) (set_quiet true (plain_args false false)) linux
           (start site_abab)).1
    = inr ([Some "a.txt"; Some "b.txt"], Counters 2 0 0 0, [Copied; Copied]) ∧
  copy_calls
    (main_on (fails_after 7) (set_quiet true (plain_args false false)) linux
             (start site_abab)).2 = [("src/a.txt", "tgt"); ("src/b.txt", "tgt")].
Proof. repeat split; vm_compute; reflexivity. Qed.

(** ** Dry runs *)

Section Dry_run.
Context `{Runtime}.

Lemma dispatch_file_dry_readonly (a : args) (h : host) (file : option string)
    (c : counters) :
  readonly (dispatch_file (set_dry_run true a) h file c).
Proof.
  destruct file as [file |]; [| apply readonly_raise].
  unfold dispatch_file. simpl.
  repeat first
    [ apply readonly_ret | apply readonly_lift | apply readonly_fs_exists
    | apply readonly_fs_abspath | apply readonly_when, readonly_print
    | apply readonly_bind; [| intros ?]
    | match goal with |- readonly (if ?b then _ else _) => destruct b end ].
Qed.

Lemma dispatch_dry_readonly (a : args) (h : host) (files : list (option string))
    (c : counters) :
  readonly (dispatch (set_dry_run true a) h files c).
Proof.
  revert c. induction files as [| file files IH]; intros c; simpl.
  - apply readonly_ret.
  - apply readonly_bind; [apply dispatch_file_dry_readonly |]. intros r.
    apply readonly_bind; [apply IH |]. intros rs. apply readonly_ret.
Qed.

Lemma main_dry_readonly (a : args) (h : host) :
  readonly (main (set_dry_run true a) h).
Proof.
  unfold main.
  apply readonly_bind;
    [apply output_only_readonly, output_only_print_configuration |].
  intros _. apply readonly_bind; [apply readonly_check_paths |].
  intros _. apply readonly_bind; [apply readonly_read_files |].
  intros files. apply readonly_bind; [apply dispatch_dry_readonly |].
  intros r. apply readonly_bind;
    [apply output_only_readonly, output_only_report |].
  intros _. apply readonly_ret.
Qed.

(** A pass of the loop body that returns without [--dry-run] returns the
    same with it, from any world that answers the probes alike. *)
Lemma dispatch_file_dry_of_real (a : args) (h : host) (file : string)
    (c c' : counters) (o : outcome) (wr wr' wd : world) :
  probe a (w_fs wr) file = probe a (w_fs wd) file →
  dispatch_file (set_dry_run false a) h (Some file) c wr = (inr (c', o), wr') →
  ∃ wd', dispatch_file (set_dry_run true a) h (Some file) c wd
         = (inr (c', o), wd').
Proof.
  unfold probe. intros [= Hsrc Htgt Habs]. unfold_body. simpl.
  rewrite Hsrc. destruct (overwrite a); simpl; rewrite ?Htgt;
    destruct (exists_ (w_fs wd) (join (source_dir a) file)); simpl;
    rewrite ?Habs; intros Hrun; repeat case_match; simplify_eq; eauto;
    rewrite Habs in *; congruence.
Qed.

Lemma dispatch_file_dry_fs (a : args) (h : host) (file : option string)
    (c : counters) (w : world) :
  w_fs (dispatch_file (set_dry_run true a) h file c w).2 = w_fs w.
Proof. apply dispatch_file_dry_readonly. Qed.

Lemma dispatch_file_agree (a : args) (h : host) (file : option string)
    (c : counters) :
  agree (dispatch_file a h file c) (dispatch_file a h file c).
Proof.
  destruct a as [f s t n q o d].
  exact (dispatch_file_quiet (Args f s t n q o d) q q h file c).
Qed.

Lemma undisturbed_same_effects (a : args) (h : host) (s : fs)
    (files : list (option string)) (c : counters) (w1 w2 : world) :
  same_effects w1 w2 →
  undisturbed a h s c w1 files → undisturbed a h s c w2 files.
Proof.
  revert c w1 w2. induction files as [| file files IH]; intros c w1 w2 Hw;
    [done |].
  simpl. intros [Hprobe Hrest]. split.
  - destruct file; [| done]. destruct Hw as [<- _]. done.
  - destruct (dispatch_file_agree (set_dry_run false a) h file c w1 w2 Hw)
      as [Hr Hw'].
    destruct (dispatch_file (set_dry_run false a) h file c w1) as [[? | ?] ?],
      (dispatch_file (set_dry_run false a) h file c w2) as [[? | ?] ?];
      simpl in *; simplify_eq; eauto.
Qed.

(** The loop with [--dry-run] follows the loop without it as long as the
    latter is undisturbed. *)
Lemma dispatch_dry_of_real (a : args) (h : host) (s : fs)
    (files : list (option string)) (c c' : counters) (os : list outcome)
    (wr wr' wd : world) :
  undisturbed a h s c wr files →
  w_fs wd = s →
  dispatch (set_dry_run false a) h files c wr = (inr (c', os), wr') →
  ∃ wd', dispatch (set_dry_run true a) h files c wd = (inr (c', os), wd').
Proof.
  revert c c' os wr wr' wd.
  induction files as [| file files IH]; intros c c' os wr wr' wd; simpl.
  - unfold ret. intros _ _ [= <- <- <-]. eauto.
  - intros [Hprobe Hrest] Hs Hrun.
    apply bind_inr in Hrun as ([c1 o] & wr1 & Hstep & Hrun).
    apply bind_inr in Hrun as ([c2 os2] & wr2 & Hloop & Hrun).
    unfold ret in Hrun. simpl in Hrun. injection Hrun as <- <- <-.
    rewrite Hstep in Hrest. simpl in Hrest.
    destruct file as [file |]; [| discriminate Hstep].
    destruct (dispatch_file_dry_of_real a h file c c1 o wr wr1 wd)
      as [wd1 Hdry]; [by rewrite Hs | done |].
    assert (w_fs wd1 = s) as Hs1.
    { pose proof (dispatch_file_dry_fs a h (Some file) c wd) as Hfs.
      rewrite Hdry in Hfs. simpl in Hfs. congruence. }
    destruct (IH _ _ _ _ _ wd1 Hrest Hs1 Hloop) as [wd2 Hdry2].
    exists wd2. unfold bind. rewrite Hdry. simpl in *. by rewrite Hdry2.
Qed.


End Dry_run.



(** ** The POSIX instance: a directory under its own name *)

Lemma append_cons (x : ascii) (s s' : string) :
  String x s +:+ s' = String x (s +:+ s').
Proof. reflexivity. Qed.

Lemma append_empty_r (s : string) : s +:+ "" = s.
Proof.
  induction s as [| x s IH]; [done |]. by rewrite append_cons, IH.
Qed.

Lemma split_on_nonempty (c : ascii) (s : string) : split_on c s ≠ [].
Proof.
  destruct s as [| x s]; simpl; [done |].
  destruct (decide (x = c)); [done |]. by destruct (split_on c s).
Qed.

Lemma split_on_trailing (c : ascii) (s : string) :
  split_on c (s +:+ String c "") = (split_on c s ++ [""])%list.
Proof.
  induction s as [| x s IH].
  - change ("" +:+ String c "") with (String c ""). simpl.
    by destruct (decide (c = c)).
  - rewrite append_cons. simpl.
    destruct (decide (x = c)); rewrite IH; [done |].
    pose proof (split_on_nonempty c s). by destruct (split_on c s).
Qed.

Lemma walk_app (t : gmap (list string) node) (cur : list string)
    (comps comps' : list string) :
  walk t cur (comps ++ comps') =
    match walk t cur comps with
    | Some k => walk t k comps'
    | None => None
    end.
Proof.
  revert cur. induction comps as [| comp comps IH]; intros cur; simpl; [done |].
  destruct (node_at t cur) as [[] |]; auto.
Qed.

Lemma startswith_append (c : ascii) (s s' : string) :
  s ≠ "" → startswith c (s +:+ s') = startswith c s.
Proof. destruct s; [done |]. intros _. by rewrite append_cons. Qed.

(** A trailing slash on the name of a directory names the directory. *)
Lemma stat_trailing_slash (s : posix_fs) (d : string) :
  stat s d = Some Dir → stat s (d +:+ "/") = Some Dir.
Proof.
  unfold stat, resolve. destruct (bool_decide (d = "")) eqn:Hd; [done |].
  apply bool_decide_eq_false in Hd.
  rewrite bool_decide_eq_false_2 by (by destruct d).
  unfold posixpath.isabs. rewrite startswith_append by done.
  rewrite split_on_trailing, walk_app.
  destruct (walk (nodes s) _ (split_on "/" d)) as [k |]; [| done].
  intros Hk. simpl. by rewrite Hk.
Qed.

(** [join(d, "")] exists whenever [d] is a directory. *)
Lemma directory_itself_exists (s : posix_fs) (d : string) :
  posix_isdir s d = true → posix_exists s (posixpath.join d "") = true.
Proof.
  unfold posix_isdir, posix_exists. intros Hd%bool_decide_eq_true.
  apply bool_decide_eq_true. unfold posixpath.join. simpl.
  destruct (bool_decide (d = "") || endswith "/" d).
  - rewrite append_empty_r, Hd. by eexists.
  - rewrite append_empty_r, (stat_trailing_slash s d Hd). by eexists.
Qed.

Lemma column_elem_of (key : string) (rows : list (gmap string (option string)))
    (raw : list (option string)) (row : gmap string (option string))
    (v : option string) :
  column key rows = inr raw → row ∈ rows → row !! key = Some v → v ∈ raw.
Proof.
  revert raw. induction rows as [| row' rows IH]; intros raw; simpl.
  - intros _ Hin. by apply elem_of_nil in Hin.
  - unfold getitem. destruct (row' !! key) as [v' |] eqn:Hv'; [| discriminate].
    destruct (column key rows) as [e | vs]; [discriminate |].
    intros [= <-] [-> | Hin]%elem_of_cons Hv.
    + rewrite Hv in Hv'. injection Hv' as <-. left.
    + right. by apply IH.
Qed.

(** ** A header without the configured column *)

Lemma fold_insert_lookup_None {V} (key : string) (pairs : list (string * V))
    (d : gmap string V) :
  d !! key = None → key ∉ pairs.*1 →
  fold_left (λ d kv, <[kv.1 := kv.2]> d) pairs d !! key = None.
Proof.
  revert d. induction pairs as [| [k v] pairs IH]; intros d Hd Hnin; [done |].
  rewrite fmap_cons in Hnin. apply not_elem_of_cons in Hnin as [Hne Hnin].
  simpl. apply IH; [| done]. by rewrite lookup_insert_ne.
Qed.

Lemma fold_restval_lookup_None (key : string) (keys : list string)
    (d : gmap string (option string)) :
  d !! key = None → key ∉ keys →
  fold_left (λ d k, <[k := None]> d) keys d !! key = None.
Proof.
  revert d. induction keys as [| k keys IH]; intros d Hd Hnin; [done |].
  apply not_elem_of_cons in Hnin as [Hne Hnin].
  simpl. apply IH; [| done]. by rewrite lookup_insert_ne.
Qed.

(** A row of the reader has no key outside the header. *)
Lemma DictReader_row_missing (fieldnames row : list string) (key : string) :
  key ∉ fieldnames → DictReader_row fieldnames row !! key = None.
Proof.
  intros Hnin. unfold DictReader_row, dict_of.
  assert (fold_left (λ d kv, <[kv.1 := kv.2]> d)
            (zip fieldnames (Some <$> row)) (∅ : gmap string (option string))
          !! key = None) as Hzip.
  { apply fold_insert_lookup_None; [apply lookup_empty |].
    intros ([k v] & -> & Hin)%list_elem_of_fmap.
    apply elem_of_zip_l in Hin. done. }
  repeat case_bool_decide; try done.
  apply fold_restval_lookup_None; [done |].
  intros Hin. apply Hnin. by eapply subseteq_drop.
Qed.

Section Missing_column.
Context `{Runtime}.

(** With at least one non-blank data row, a header that lacks the
    configured column ends the extraction with [parser.error]. *)
Lemma read_files_missing_column (a : args) (w : world) (text : string)
    (fieldnames : list string) (rest : list (list string)) :
  open_read (w_fs w) (csv_file a) = inr text →
  csv_reader text = fieldnames :: rest →
  column_name a ∉ fieldnames →
  (∃ row, row ∈ rest ∧ row ≠ []) →
  read_files a w =
    (inl (SystemExit 2
            ("Column " +:+ quoted (column_name a) +:+ " does not exist")), w).
Proof.
  intros Hopen Hcsv Hnin (row & Hin & Hne).
  unfold read_files, bind, fs_open_read, parser_error, raise.
  rewrite Hopen, Hcsv. unfold DictReader.
  destruct (filter (λ row, row ≠ []) rest) as [| row' rows] eqn:Hrows.
  - assert (row ∈ filter (λ row, row ≠ []) rest) as Hrow
      by (by apply list_elem_of_filter).
    rewrite Hrows in Hrow. by apply elem_of_nil in Hrow.
  - rewrite fmap_cons. simpl. unfold getitem.
    by rewrite DictReader_row_missing.
Qed.

(** X2: when the header lacks the configured column and there is at least
    one non-blank data row, the whole run exits with status 2 and the
    message of line 72 before the loop: nothing has been copied and the
    file system is as it was. *)
Lemma main_missing_column (a : args) (h : host) (w : world) (text : string)
    (fieldnames : list string) (rest : list (list string)) :
  exists_ (w_fs w) (csv_file a) = true →
  exists_ (w_fs w) (source_dir a) = true →
  exists_ (w_fs w) (target_dir a) = true →
  open_read (w_fs w) (csv_file a) = inr text →
  csv_reader text = fieldnames :: rest →
  column_name a ∉ fieldnames →
  (∃ row, row ∈ rest ∧ row ≠ []) →
  (main a h w).1 =
    inl (SystemExit 2
           ("Column " +:+ quoted (column_name a) +:+ " does not exist")) ∧
  same_effects (main a h w).2 w.
Proof.
  intros Hcsv Hsrc Htgt Hopen Hread Hnin Hrow.
  destruct (output_only_inr _ w (output_only_print_configuration a))
    as (wa & Hconf & [Hfs Hcalls]).
  assert (check_paths a wa = (inr (), wa)) as Hpaths.
  { unfold check_paths, for_each, bind, fs_exists, ret.
    do 3 (simpl; rewrite ?Hfs, ?Hcsv, ?Hsrc, ?Htgt). done. }
  rewrite <- Hfs in Hopen.
  pose proof (read_files_missing_column a wa text fieldnames rest
                Hopen Hread Hnin Hrow) as Hfiles.
  unfold main, bind. rewrite Hconf, Hpaths, Hfiles. by split.
Qed.

End Missing_column.

(** C3, where the code departs from it: a CSV file made of the header
    [name] alone, read for the column [filename], does not end in
    [parser.error]; the run returns normally with an empty list of
    filenames and four counters at zero. *)
Theorem C3_header_only_csv_is_accepted :
  ("filename" ∉ ["name"]) ∧
  csv_reader (text_of ["name"]) = [["name"]] ∧
  (main (plain_args false false) linux (start site_header_only)).1
    = inr ([], Counters 0 0 0 0, []) ∧
  stdout (main (plain_args false false) linux (start site_header_only)).2
    = [ "CSV file: " +:+ quoted "files.csv";
        "Column to read: " +:+ quoted "filename";
        "Source directory: " +:+ quoted "src";
        "Destination directory: " +:+ quoted "tgt";
        "Overwrite existing: False"; "Dry Run: False"; "";
        ""; "Operation complete"; "0 files copied" ].
Proof.
  split; [| split; [| split]]; try (vm_compute; reflexivity).
  intros [[=] | Hin%elem_of_nil]%elem_of_cons. done.
Qed.

(** ** Where a copy lands *)

Lemma append_assoc (s1 s2 s3 : string) :
  (s1 +:+ s2) +:+ s3 = s1 +:+ (s2 +:+ s3).
Proof.
  induction s1 as [| x s1 IH]; [done |]. by rewrite !append_cons, IH.
Qed.

Lemma split_on_plain (c : ascii) (s : string) :
  contains c s = false → split_on c s = [s].
Proof.
  induction s as [| x s IH]; simpl; [done |].
  intros [Hx Hs]%orb_false_elim. apply bool_decide_eq_false in Hx.
  destruct (decide (x = c)); [done |]. by rewrite IH.
Qed.

Lemma split_on_append (c : ascii) (s s' : string) :
  split_on c (s +:+ String c s') = (split_on c s ++ split_on c s')%list.
Proof.
  induction s as [| x s IH].
  - change ("" +:+ String c s') with (String c s'). simpl.
    by destruct (decide (c = c)).
  - rewrite append_cons. simpl.
    destruct (decide (x = c)); rewrite IH; [done |].
    pose proof (split_on_nonempty c s). by destruct (split_on c s).
Qed.

Lemma endswith_inv (c : ascii) (s : string) :
  endswith c s = true → ∃ s', s = s' +:+ String c "".
Proof.
  induction s as [| x s IH]; [done |]. simpl.
  destruct s as [| y s].
  - intros ->%bool_decide_eq_true. by exists "".
  - intros [s' ->]%IH. exists (String x s'). by rewrite append_cons.
Qed.

Lemma last_split_on_append (c : ascii) (s f : string) :
  contains c f = false →
  List.last (split_on c (s +:+ String c f)) "" = f.
Proof.
  intros Hf. rewrite split_on_append, (split_on_plain c f Hf).
  apply List.last_last.
Qed.

(** A name without a slash is the base name of its path in any
    directory. *)
Lemma basename_join_plain (d f : string) :
  contains "/" f = false → posixpath.basename (posixpath.join d f) = f.
Proof.
  intros Hf. unfold posixpath.basename, posixpath.join.
  assert (startswith "/" f = false) as ->.
  { destruct f as [| x f]; [done |]. simpl in *.
    by apply orb_false_elim in Hf as [-> _]. }
  destruct (bool_decide (d = "")) eqn:Hd; simpl.
  - apply bool_decide_eq_true in Hd as ->.
    change ("" +:+ f) with f. by rewrite split_on_plain.
  - destruct (endswith "/" d) eqn:He.
    + apply endswith_inv in He as [d' ->].
      rewrite append_assoc. change (String "/" "" +:+ f) with (String "/" f).
      by apply last_split_on_append.
    + change ("/" +:+ f) with (String "/" f). by apply last_split_on_append.
Qed.

(** For such a name the copy of line 93 goes to the path the loop body
    checked in the target directory. *)
Lemma plain_name_is_kept (s : posix_fs) (src_dir dst f : string) :
  posix_isdir s dst = true →
  contains "/" f = false →
  shutil_copy (posixpath.join src_dir f) dst s =
    shutil_copyfile (posixpath.join src_dir f) (posixpath.join dst f) s.
Proof.
  intros Hdir Hf. unfold shutil_copy. by rewrite Hdir, basename_join_plain.
Qed.

(** C9, where the code departs from it: for the filename [sub/a.txt] the
    run reads [src/sub/a.txt], counts one copy, and writes the data to
    [tgt/a.txt]; [tgt/sub/a.txt], the path whose existence and length the
    loop body had checked, is not created although [tgt/sub] is a
    directory. *)
Theorem C9_directory_part_is_dropped :
  (main (plain_args false false) linux (start site_subdir)).1
    = inr ([Some "sub/a.txt"], Counters 1 0 0 0, [Copied]) ∧
  copy_calls (main (plain_args false false) linux (start site_subdir)).2
    = [("src/sub/a.txt", "tgt")] ∧
  stat site_subdir "tgt/sub" = Some Dir ∧
  stat site_subdir "tgt/a.txt" = None ∧
  stat (w_fs (main (plain_args false false) linux (start site_subdir)).2)
       "tgt/a.txt" = Some (File "A") ∧
  stat (w_fs (main (plain_args false false) linux (start site_subdir)).2)
       (join "tgt" "sub/a.txt") = None.
Proof. repeat split; vm_compute; reflexivity. Qed.

(** * Further properties of the code *)

(** ** Validation of the three paths (lines 61-63) *)

Section Validation.
Context `{Runtime}.

(** X1: when one of the CSV file, the source directory and the target
    directory does not exist, the run ends in [parser.error] with the
    message that names the first missing one, in that order; nothing has
    been read, copied or changed. *)
Theorem X1_first_missing_path_is_reported (a : args) (h : host) (w : world)
    (i : nat) (p : string) :
  list_find (λ p, exists_ (w_fs w) p = false)
            [csv_file a; source_dir a; target_dir a] = Some (i, p) →
  (main a h w).1 = inl (SystemExit 2 (quoted p +:+ " does not exist")) ∧
  same_effects (main a h w).2 w.
Proof.
  intros Hfind.
  destruct (output_only_inr _ w (output_only_print_configuration a))
    as (wa & Hconf & [Hfs Hcalls]).
  destruct wa as [fa oa ca]. simpl in Hfs, Hcalls. subst fa ca.
  unfold main, bind. rewrite Hconf.
  unfold check_paths, for_each, bind, fs_exists, parser_error, raise, ret.
  simpl. simpl in Hfind.
  destruct (exists_ (w_fs w) (csv_file a)); simpl in *.
  - destruct (exists_ (w_fs w) (source_dir a)); simpl in *.
    + destruct (exists_ (w_fs w) (target_dir a)); simpl in *;
        [discriminate |].
      simplify_eq. by split.
    + simplify_eq. by split.
  - simplify_eq. by split.
Qed.

End Validation.

Lemma X1_witness :
  (main (Args "files.csv" "src" "tgt" "filename" false false false) linux
        (start site_no_source)).1
    = inl (SystemExit 2 (quoted "src" +:+ " does not exist")) ∧
  same_effects
    (main (Args "files.csv" "src" "tgt" "filename" false false false) linux
          (start site_no_source)).2
    (start site_no_source).
Proof.
  apply (X1_first_missing_path_is_reported
           (Args "files.csv" "src" "tgt" "filename" false false false) linux
           (start site_no_source) 1 "src").
  vm_compute. reflexivity.
Defined.

Lemma X2_witness :
  (main (plain_args false false) linux (start site_wrong_header)).1 =
    inl (SystemExit 2 ("Column " +:+ quoted "filename" +:+ " does not exist")) ∧
  same_effects (main (plain_args false false) linux (start site_wrong_header)).2
               (start site_wrong_header).
Proof.
  apply (main_missing_column (plain_args false false) linux
           (start site_wrong_header) (text_of ["name"; "a.txt"])
           ["name"] [["a.txt"]]); try (vm_compute; reflexivity).
  - intros [[=] | Hin%elem_of_nil]%elem_of_cons. done.
  - exists ["a.txt"]. split; [left | discriminate].
Defined.

(** ** Rows of the reader and the extraction (lines 65-73) *)

Lemma fold_insert_is_Some_mono {V} (key : string) (pairs : list (string * V))
    (d : gmap string V) :
  is_Some (d !! key) →
  is_Some (fold_left (λ d kv, <[kv.1 := kv.2]> d) pairs d !! key).
Proof.
  revert d. induction pairs as [| [k v] pairs IH]; intros d Hd; [done |].
  simpl. apply IH. destruct (decide (k = key)) as [-> | Hne].
  - rewrite lookup_insert_eq. by eexists.
  - by rewrite lookup_insert_ne.
Qed.

Lemma fold_insert_is_Some_in {V} (key : string) (pairs : list (string * V))
    (d : gmap string V) :
  key ∈ pairs.*1 →
  is_Some (fold_left (λ d kv, <[kv.1 := kv.2]> d) pairs d !! key).
Proof.
  revert d. induction pairs as [| [k v] pairs IH]; intros d Hin.
  - by apply elem_of_nil in Hin.
  - rewrite fmap_cons in Hin. simpl in *.
    apply elem_of_cons in Hin as [-> | Hin]; [| by apply IH].
    apply fold_insert_is_Some_mono. rewrite lookup_insert_eq. by eexists.
Qed.

Lemma fold_restval_keeps (key : string) (keys : list string)
    (d : gmap string (option string)) :
  is_Some (d !! key) →
  is_Some (fold_left (λ d k, <[k := None]> d) keys d !! key).
Proof.
  revert d. induction keys as [| k keys IH]; intros d Hd; [done |].
  simpl. apply IH. destruct (decide (k = key)) as [-> | Hne].
  - rewrite lookup_insert_eq. by eexists.
  - by rewrite lookup_insert_ne.
Qed.

Lemma fold_restval_lookup_in (key : string) (keys : list string)
    (d : gmap string (option string)) :
  key ∈ keys →
  fold_left (λ d k, <[k := None]> d) keys d !! key = Some None.
Proof.
  revert d. induction keys as [| k keys IH]; intros d Hin.
  - by apply elem_of_nil in Hin.
  - simpl. destruct (decide (key ∈ keys)) as [Hin' | Hnin]; [by apply IH |].
    apply elem_of_cons in Hin as [-> | Hin]; [| done].
    clear IH. revert d. induction keys as [| k' keys IH]; intros d; simpl.
    + apply lookup_insert_eq.
    + apply not_elem_of_cons in Hnin as [Hne Hnin].
      rewrite insert_insert_ne by done. by apply IH.
Qed.

Lemma fst_zip_take {A B} (l : list A) (k : list B) :
  (zip l k).*1 = take (length k) l.
Proof.
  revert k. induction l as [| x l IH]; intros [| y k]; simpl; try done.
  by rewrite IH.
Qed.

(** Every column of the header is a key of every row. *)
Lemma DictReader_row_present (fieldnames row : list string) (key : string) :
  key ∈ fieldnames → is_Some (DictReader_row fieldnames row !! key).
Proof.
  intros Hin. unfold DictReader_row, dict_of.
  destruct (decide (key ∈ take (length row) fieldnames)) as [Htake | Htake].
  - assert (is_Some (fold_left (λ d kv, <[kv.1 := kv.2]> d)
              (zip fieldnames (Some <$> row))
              (∅ : gmap string (option string)) !! key)) as Hzip.
    { apply fold_insert_is_Some_in. by rewrite fst_zip_take, length_fmap. }
    repeat case_bool_decide; try done. by apply fold_restval_keeps.
  - rewrite <- (take_drop (length row) fieldnames) in Hin.
    apply elem_of_app in Hin as [Hin | Hin]; [done |].
    assert (length row < length fieldnames) as Hshort.
    { destruct (decide (length row < length fieldnames)); [done |].
      rewrite drop_ge in Hin by lia. by apply elem_of_nil in Hin. }
    rewrite bool_decide_eq_false_2 by lia.
    rewrite bool_decide_eq_true_2 by done.
    rewrite fold_restval_lookup_in by done. by eexists.
Qed.

(** A row with fewer cells than the header has [None] in the columns it
    does not reach. *)
Lemma DictReader_row_short (fieldnames row : list string) (key : string) :
  key ∈ drop (length row) fieldnames →
  DictReader_row fieldnames row !! key = Some None.
Proof.
  intros Hin. unfold DictReader_row.
  assert (length row < length fieldnames) as Hshort.
  { destruct (decide (length row < length fieldnames)); [done |].
    rewrite drop_ge in Hin by lia. by apply elem_of_nil in Hin. }
  rewrite bool_decide_eq_false_2 by lia.
  rewrite bool_decide_eq_true_2 by done.
  by apply fold_restval_lookup_in.
Qed.

Lemma column_total (key : string) (rows : list (gmap string (option string))) :
  Forall (λ row, is_Some (row !! key)) rows → ∃ raw, column key rows = inr raw.
Proof.
  induction 1 as [| row rows [v Hv] _ [raw IH]]; simpl; [by eexists |].
  unfold getitem. rewrite Hv, IH. by eexists.
Qed.

Lemma filter_blank_rows (rest : list (list string)) :
  Forall (λ row, row = []) rest → filter (λ row, row ≠ []) rest = [].
Proof.
  induction 1 as [| row rest -> _ IH]; [done |].
  rewrite filter_cons_False by (by intros ?). done.
Qed.

Section Extraction_outcome.
Context `{Runtime}.

(** X3: once the CSV file has been opened and has a header, the
    extraction returns a list of filenames exactly when the header holds
    the configured column or every record after the header is blank. *)
Theorem X3_extraction_returns_iff (a : args) (w : world) (text : string)
    (fieldnames : list string) (rest : list (list string)) :
  open_read (w_fs w) (csv_file a) = inr text →
  csv_reader text = fieldnames :: rest →
  (∃ files, (read_files a w).1 = inr files) ↔
  (column_name a ∈ fieldnames ∨ Forall (λ row, row = []) rest).
Proof.
  intros Hopen Hcsv. split.
  - intros [files Hrun].
    destruct (decide (column_name a ∈ fieldnames)) as [Hin | Hnin]; [by left |].
    destruct (decide (Forall (λ row, row = []) rest)) as [Hall | Hsome];
      [by right |].
    apply not_Forall_Exists in Hsome; [| apply _].
    apply Exists_exists in Hsome as (row & Hrow & Hne).
    rewrite (read_files_missing_column a w text fieldnames rest) in Hrun;
      [discriminate | done | done | done | by exists row].
  - intros Hok. unfold read_files, bind, fs_open_read, ret.
    rewrite Hopen, Hcsv. unfold DictReader.
    destruct (column_total (column_name a)
                (DictReader_row fieldnames <$> filter (λ row, row ≠ []) rest))
      as [raw Hraw].
    { destruct Hok as [Hin | Hblank].
      - apply Forall_fmap, Forall_forall. intros row _.
        by apply DictReader_row_present.
      - rewrite filter_blank_rows by done. constructor. }
    rewrite Hraw. by eexists.
Qed.

End Extraction_outcome.

Lemma X3_witness :
  (∃ files, (read_files (plain_args false false) (start site_abab)).1
            = inr files) ↔
  ("filename" ∈ ["filename"] ∨
   Forall (λ row, row = []) [["a.txt"]; ["b.txt"]; ["a.txt"]]).
Proof.
  apply (X3_extraction_returns_iff (plain_args false false) (start site_abab)
           (text_of ["filename"; "a.txt"; "b.txt"; "a.txt"]));
    vm_compute; reflexivity.
Defined.

Section Short_rows.
Context `{Runtime}.

Lemma dispatch_None_raises (a : args) (h : host) (files : list (option string))
    (c : counters) (w : world) :
  None ∈ files → ∃ e, (dispatch a h files c w).1 = inl e.
Proof.
  revert c w. induction files as [| file files IH]; intros c w Hin.
  - by apply elem_of_nil in Hin.
  - simpl. unfold bind.
    destruct (dispatch_file a h file c w) as [[e | r] w1] eqn:Hstep;
      [by eexists |].
    destruct file as [file |]; [| discriminate Hstep].
    apply elem_of_cons in Hin as [[=] | Hin].
    destruct (IH r.1 w1 Hin) as [e He].
    destruct (dispatch a h files r.1 w1) as [[e' | rs] w2]; simpl in *;
      [by eexists | discriminate].
Qed.


End Short_rows.


(** ** Removal of duplicates, continued (line 73) *)

Section Unique_fixpoints.
Context {K : Type} `{EqDecision K}.

Lemma unique_of_NoDup (l : list K) : NoDup l → unique l = l.
Proof.
  induction l as [| k l IH] using rev_ind; [done |].
  intros [Hl [Hk _]]%NoDup_app. rewrite unique_snoc, IH by done.
  rewrite decide_False; [done |].
  intros Hin. apply (Hk k Hin). left.
Qed.

Lemma unique_length (l : list K) : (length (unique l) ≤ length l)%nat.
Proof.
  induction l as [| k l IH] using rev_ind; [done |].
  rewrite unique_snoc. destruct (decide (k ∈ unique l));
    rewrite !length_app; simpl; lia.
Qed.

(** X5: removing duplicates leaves a list unchanged exactly when it has
    none, doing it twice is doing it once, and the result is never longer
    than the input. *)
Theorem X5_unique_fixes_duplicate_free_lists (l : list K) :
  (unique l = l ↔ NoDup l) ∧
  unique (unique l) = unique l ∧
  (length (unique l) ≤ length l)%nat.
Proof.
  split; [| split].
  - split; [intros <-; apply unique_NoDup | apply unique_of_NoDup].
  - apply unique_of_NoDup, unique_NoDup.
  - apply unique_length.
Qed.

End Unique_fixpoints.

(** ** What the loop prints and copies (lines 79-106) *)

Section Loop_effects.
Context `{Runtime}.

Lemma silent_ret {A} (x : A) : silent (ret x).
Proof. by intros w. Qed.

Lemma silent_raise {A} (e : exn) : silent (raise (A := A) e).
Proof. by intros w. Qed.

Lemma silent_bind {A B} (m : M A) (k : A → M B) :
  silent m → (∀ x, silent (k x)) → silent (bind m k).
Proof.
  intros Hm Hk w. unfold bind. specialize (Hm w).
  destruct (m w) as [[e | x] w']; simpl in *; [done |].
  by rewrite Hk.
Qed.

Lemma silent_lift {A} (r : exn + A) : silent (lift r).
Proof. destruct r; [apply silent_raise | apply silent_ret]. Qed.

Lemma silent_fs_exists (p : string) : silent (fs_exists p).
Proof. by intros w. Qed.

Lemma silent_fs_abspath (p : string) : silent (fs_abspath p).
Proof. by intros w. Qed.

Lemma silent_fs_open_read (p : string) : silent (fs_open_read p).
Proof. by intros w. Qed.

Lemma silent_fs_copy (src dst : string) : silent (fs_copy src dst).
Proof. intros w. unfold fs_copy. by destruct (copy src dst (w_fs w)). Qed.

Lemma silent_when_false (m : M unit) : silent (when false m).
Proof. apply silent_ret. Qed.

Ltac silent_step :=
  first
    [ apply silent_ret | apply silent_raise | apply silent_lift
    | apply silent_fs_exists | apply silent_fs_abspath
    | apply silent_fs_open_read | apply silent_fs_copy
    | apply silent_when_false
    | apply silent_bind; [| intros ?]
    | match goal with
      | |- silent (if ?b then _ else _) => destruct b
      | |- silent (when ?b _) => destruct b; simpl
      end ].

Lemma dispatch_file_silent (a : args) (h : host) (file : option string)
    (c : counters) :
  quiet a = true → silent (dispatch_file a h file c).
Proof.
  intros Hq. destruct file as [file |]; [| apply silent_raise].
  unfold dispatch_file. rewrite Hq. simpl. repeat silent_step.
Qed.

Lemma dispatch_silent (a : args) (h : host) (files : list (option string))
    (c : counters) :
  quiet a = true → silent (dispatch a h files c).
Proof.
  intros Hq. revert c. induction files as [| file files IH]; intros c; simpl.
  - apply silent_ret.
  - apply silent_bind; [by apply dispatch_file_silent |]. intros r.
    apply silent_bind; [apply IH |]. intros rs. apply silent_ret.
Qed.

(** X6: with [--quiet] a run writes nothing to standard output, however
    it ends. *)
Theorem X6_quiet_run_prints_nothing (a : args) (h : host) (w : world) :
  quiet a = true → stdout (main a h w).2 = stdout w.
Proof.
  intros Hq. revert w. change (silent (main a h)). unfold main.
  apply silent_bind.
  { unfold print_configuration. rewrite Hq. apply silent_when_false. }
  intros _. apply silent_bind.
  { unfold check_paths, parser_error. simpl. repeat silent_step. }
  intros _. apply silent_bind.
  { unfold read_files, parser_error. apply silent_bind;
      [apply silent_fs_open_read |].
    intros text. repeat case_match; repeat silent_step. }
  intros files. apply silent_bind; [by apply dispatch_silent |].
  intros r. apply silent_bind.
  { unfold report. rewrite Hq. apply silent_when_false. }
  intros _. apply silent_ret.
Qed.

(** What one pass of the loop body that returns has printed and
    copied. *)
Lemma dispatch_file_effects (a : args) (h : host) (file : string)
    (c c' : counters) (o : outcome) (w w' : world) :
  dispatch_file a h (Some file) c w = (inr (c', o), w') →
  stdout w' = (stdout w ++ if quiet a then [] else [message file o])%list ∧
  copy_calls w' =
    (copy_calls w ++
     if decide (o = Copied) then
       if dry_run a then [] else [(join (source_dir a) file, target_dir a)]
     else [])%list.
Proof.
  unfold_body. intros Hrun.
  destruct (quiet a), (dry_run a); simpl in Hrun;
    repeat case_match; simplify_eq; simpl; rewrite ?app_nil_r; done.
Qed.

(** X7: without [--quiet], a loop that completes has printed exactly one
    line per filename, in order, and the line is the message of the branch
    the filename took. *)
Theorem X7_loop_prints_one_line_per_filename (a : args) (h : host)
    (files : list (option string)) (c c' : counters) (os : list outcome)
    (w : world) :
  quiet a = false →
  (dispatch a h files c w).1 = inr (c', os) →
  ∃ names : list string,
    files = Some <$> names ∧
    stdout (dispatch a h files c w).2
      = (stdout w ++ zip_with message names os)%list.
Proof.
  intros Hq. revert c c' os w.
  induction files as [| file files IH]; intros c c' os w; simpl.
  - unfold ret. simpl. intros [= <- <-]. exists []. by rewrite app_nil_r.
  - unfold bind.
    destruct (dispatch_file a h file c w) as [[e | [c1 o]] w1] eqn:Hstep;
      [discriminate |].
    destruct file as [file |]; [| discriminate Hstep].
    specialize (IH c1). simpl.
    destruct (dispatch a h files c1 w1) as [[e | [c2 os2]] w2] eqn:Hrest;
      [simpl; discriminate |].
    unfold ret. simpl. intros [= <- <-].
    destruct (IH c2 os2 w1) as (names & -> & Hout); [by rewrite Hrest |].
    rewrite Hrest in Hout. simpl in Hout.
    apply dispatch_file_effects in Hstep as [Hline _]. rewrite Hq in Hline.
    exists (file :: names). split; [done |].
    rewrite Hout, Hline. simpl. by rewrite <- app_assoc.
Qed.

Lemma dispatch_copy_calls (a : args) (h : host)
    (files : list (option string)) (c c' : counters) (os : list outcome)
    (w w' : world) :
  dry_run a = false →
  dispatch a h files c w = (inr (c', os), w') →
  ∃ names : list string,
    files = Some <$> names ∧
    copy_calls w' = (copy_calls w ++ copies_of a names os)%list.
Proof.
  intros Hd. revert c c' os w w'.
  induction files as [| file files IH]; intros c c' os w w'; simpl.
  - unfold ret. intros [= <- <- <-]. exists []. by rewrite app_nil_r.
  - intros Hrun.
    apply bind_inr in Hrun as ([c1 o] & w1 & Hstep & Hrun).
    apply bind_inr in Hrun as ([c2 os2] & w2 & Hrest & Hrun).
    unfold ret in Hrun. simpl in Hrun. injection Hrun as <- <- <-.
    destruct file as [file |]; [| discriminate Hstep].
    apply IH in Hrest as (names & -> & Hcalls).
    apply dispatch_file_effects in Hstep as [_ Hcall]. rewrite Hd in Hcall.
    exists (file :: names). split; [done |].
    rewrite Hcalls, Hcall. unfold copies_of. simpl.
    destruct (decide (o = Copied)); simpl; by rewrite <- app_assoc.
Qed.

(** X8: in a run without [--dry-run] that completes, the calls to
    [shutil.copy] are exactly one per filename counted as copied, in the
    order of the list, each from the filename's path in the source
    directory to the target directory; nothing else is copied. *)
Theorem X8_copies_are_the_copied_filenames (a : args) (h : host) (w : world)
    (files : list (option string)) (c : counters) (os : list outcome) :
  dry_run a = false →
  (main a h w).1 = inr (files, c, os) →
  ∃ names : list string,
    files = Some <$> names ∧
    copy_calls (main a h w).2 = (copy_calls w ++ copies_of a names os)%list.
Proof.
  intros Hd Hrun. apply run_inr in Hrun as [w' Hrun]. rewrite Hrun. simpl.
  apply main_inr in Hrun as (wa & wb & wd & Hconf & Hpaths & _ & Hloop & Hrep).
  destruct (before_the_loop _ _ _ _ Hconf Hpaths) as [_ Hcalls].
  pose proof (output_only_report a c wd) as [_ [_ Hcalls']].
  rewrite Hrep in Hcalls'. simpl in Hcalls'.
  destruct (dispatch_copy_calls _ _ _ _ _ _ _ _ Hd Hloop)
    as (names & -> & Hloop_calls).
  exists names. split; [done |]. congruence.
Qed.

End Loop_effects.

Lemma X6_witness :
  stdout (main (Args "files.csv" "src" "tgt" "filename" true false false)
               linux (start site_abab)).2 = stdout (start site_abab).
Proof.
  apply (X6_quiet_run_prints_nothing
           (Args "files.csv" "src" "tgt" "filename" true false false)).
  reflexivity.
Defined.

Lemma X7_witness :
  ∃ names : list string,
    [Some "a.txt"; Some "b.txt"] = Some <$> names ∧
    stdout (dispatch (plain_args false false) linux
              [Some "a.txt"; Some "b.txt"] (Counters 0 0 0 0)
              (start site_taken)).2
      = (stdout (start site_taken)
         ++ zip_with message names [AlreadyExists; Copied])%list.
Proof.
  apply (X7_loop_prints_one_line_per_filename (plain_args false false) linux
           [Some "a.txt"; Some "b.txt"] (Counters 0 0 0 0) (Counters 1 0 1 0)
           [AlreadyExists; Copied] (start site_taken));
    [reflexivity | vm_compute; reflexivity].
Defined.

Lemma X8_witness :
  ∃ names : list string,
    [Some "a.txt"; Some "b.txt"] = Some <$> names ∧
    copy_calls (main (plain_args false false) linux (start site_taken)).2
      = (copy_calls (start site_taken)
         ++ copies_of (plain_args false false) names
              [AlreadyExists; Copied])%list.
Proof.
  apply (X8_copies_are_the_copied_filenames (plain_args false false) linux
           (start site_taken) [Some "a.txt"; Some "b.txt"] (Counters 1 0 1 0)
           [AlreadyExists; Copied]);
    [reflexivity | vm_compute; reflexivity].
Defined.

(** ** The path-length policy in the loop (lines 8-31, 88-100) *)

Lemma check_path_length_elsewhere (h : host) (p : string) :
  platform h ≠ "win32" → check_path_length h p = inr true.
Proof.
  intros Hp. unfold check_path_length.
  by rewrite is_long_path_available_elsewhere.
Qed.

Lemma occurrences_absent (o : outcome) (os : list outcome) :
  o ∉ os → occurrences o os = 0.
Proof.
  induction os as [| o' os IH]; [done |].
  intros [Hne Hnin]%not_elem_of_cons. rewrite occurrences_cons, IH by done.
  unfold occurrences. rewrite filter_cons_False by congruence. done.
Qed.

(** X11: the path-length check is monotone: a path that passes is
    followed by every path that is not longer. *)
Theorem X11_shorter_paths_pass (h : host) (p q : string) :
  check_path_length h p = inr true →
  (String.length q ≤ String.length p)%nat →
  check_path_length h q = inr true.
Proof.
  unfold check_path_length.
  destruct (is_long_path_available h) as [e | available]; [discriminate |].
  destruct available; [done |]. simpl.
  intros [= Hp%bool_decide_eq_true] Hq.
  by rewrite bool_decide_eq_true_2 by lia.
Qed.

Lemma X11_witness :
  check_path_length (windows ∅) "tgt/a.txt" = inr true.
Proof.
  apply (X11_shorter_paths_pass (windows ∅)
           (String.concat "" (replicate 100 "x")) "tgt/a.txt").
  - vm_compute. reflexivity.
  - vm_compute. lia.
Defined.

(** X12: the path-length check raises exactly on [win32] when the
    registry has no [FileSystem] key, and what it raises is the
    [FileNotFoundError] of [winreg.OpenKey]; a missing [LongPathsEnabled]
    value never makes it raise. *)
Theorem X12_check_raises_iff_key_is_missing (h : host) (p : string) (e : exn) :
  check_path_length h p = inl e ↔
  (platform h = "win32" ∧ registry h !! FileSystem_key = None ∧
   e = OSError "FileNotFoundError").
Proof.
  unfold check_path_length, is_long_path_available.
  destruct (decide (platform h = "win32")) as [Hp | Hp].
  - destruct (registry h !! FileSystem_key) as [key |]; simpl.
    + split; [discriminate | by intros (_ & ? & _)].
    + split; [by intros [= <-] | by intros (_ & _ & ->)].
  - split; [discriminate | by intros (? & _)].
Qed.

Section Policy_in_the_loop.
Context `{Runtime}.

Lemma dispatch_file_no_path_error (a : args) (h : host) (file : option string)
    (c c' : counters) (o : outcome) (w w' : world) :
  platform h ≠ "win32" →
  dispatch_file a h file c w = (inr (c', o), w') → o ≠ PathError.
Proof.
  intros Hp Hrun. destruct file as [file |]; unfold_body; [| discriminate].
  repeat case_match; simplify_eq; try discriminate.
  all: match goal with
       | Hc : check_path_length ?h' ?p = inr false |- _ =>
           rewrite (check_path_length_elsewhere h' p Hp) in Hc; discriminate
       end.
Qed.

Lemma dispatch_no_path_error (a : args) (h : host)
    (files : list (option string)) (c c' : counters) (os : list outcome)
    (w w' : world) :
  platform h ≠ "win32" →
  dispatch a h files c w = (inr (c', os), w') → PathError ∉ os.
Proof.
  intros Hp. revert c c' os w w'.
  induction files as [| file files IH]; intros c c' os w w'; simpl.
  - unfold ret. intros [= <- <- <-]. apply not_elem_of_nil.
  - intros Hrun.
    apply bind_inr in Hrun as ([c1 o] & w1 & Hstep & Hrun).
    apply bind_inr in Hrun as ([c2 os2] & w2 & Hrest & Hrun).
    unfold ret in Hrun. simpl in Hrun. injection Hrun as <- <- <-.
    apply not_elem_of_cons. split.
    + intros Heq. symmetry in Heq. revert Heq.
      by eapply dispatch_file_no_path_error.
    + by eapply IH.
Qed.

(** X9: on every platform other than [win32] no filename is ever counted
    as a path error: in a run that completes the fourth counter is zero
    and no filename took that branch. *)
Theorem X9_no_path_error_off_win32 (a : args) (h : host) (w : world)
    (files : list (option string)) (c : counters) (os : list outcome) :
  platform h ≠ "win32" →
  (main a h w).1 = inr (files, c, os) →
  path_error c = 0 ∧ PathError ∉ os.
Proof.
  intros Hp Hrun. apply run_inr in Hrun as [w' Hrun].
  apply main_inr in Hrun as (wa & wb & wd & _ & _ & _ & Hloop & _).
  pose proof (dispatch_no_path_error _ _ _ _ _ _ _ _ Hp Hloop) as Hnone.
  apply dispatch_counts in Hloop as (_ & _ & _ & _ & Hcount).
  rewrite occurrences_absent in Hcount by done. by split.
Qed.

(** X10: on [win32] with long paths disabled ([LongPathsEnabled] zero or
    absent), a filename that is not skipped, whose source exists and whose
    absolute destination has 260 characters or more is counted as a path
    error; it is not copied and nothing is raised. *)
Theorem X10_long_destination_is_a_path_error (a : args) (h : host)
    (key : gmap string Z) (file : string) (c : counters) (w : world) :
  platform h = "win32" →
  registry h !! FileSystem_key = Some key →
  default 0%Z (key !! "LongPathsEnabled") = 0%Z →
  exists_ (w_fs w) (join (source_dir a) file) = true →
  overwrite a = true ∨ exists_ (w_fs w) (join (target_dir a) file) = false →
  (260 ≤ String.length (abspath (w_fs w) (join (target_dir a) file)))%nat →
  dispatch_file a h (Some file) c w =
    (inr (Counters (copied c) (not_found c) (already_exist c)
                   (path_error c + 1), PathError),
     say w (if quiet a then [] else [message file PathError])).
Proof.
  intros Hp Hkey Hoff Hsrc Hgo Hlen.
  assert (check_path_length h (abspath (w_fs w) (join (target_dir a) file))
          = inr false) as Hcheck.
  { unfold check_path_length.
    rewrite (is_long_path_available_win32 h key Hp Hkey), Hoff. simpl.
    by rewrite bool_decide_eq_false_2 by lia. }
  assert (say w (if quiet a then [] else [message file PathError]) =
          (if quiet a then w
           else World (w_fs w)
                  (stdout w ++ ["Path length too long, skipping: "
                                +:+ quoted file])
                  (copy_calls w))) as ->.
  { destruct (quiet a); [apply say_nil | done]. }
  unfold_body. rewrite Hsrc.
  destruct (overwrite a) eqn:Hov; simpl.
  - rewrite Hcheck. simpl. by destruct (quiet a).
  - destruct Hgo as [? | Htgt]; [done |].
    rewrite Htgt. simpl. rewrite Hcheck. simpl. by destruct (quiet a).
Qed.

End Policy_in_the_loop.

Lemma X9_witness :
  path_error (Counters 1 0 1 0) = 0 ∧ PathError ∉ [AlreadyExists; Copied].
Proof.
  apply (X9_no_path_error_off_win32 (plain_args false false) linux
           (start site_taken) [Some "a.txt"; Some "b.txt"]);
    [discriminate | vm_compute; reflexivity].
Defined.

Lemma X10_witness :
  dispatch_file (plain_args false false) (windows ∅) (Some long_name)
    (Counters 0 0 0 0) (start site_long_name) =
  (inr (Counters 0 0 0 (0 + 1), PathError),
   say (start site_long_name) [message long_name PathError]).
Proof.
  apply (X10_long_destination_is_a_path_error (plain_args false false)
           (windows ∅) ∅ long_name (Counters 0 0 0 0) (start site_long_name)).
  - reflexivity.
  - apply lookup_singleton_eq.
  - reflexivity.
  - vm_compute. reflexivity.
  - right. vm_compute. reflexivity.
  - vm_compute. lia.
Defined.

(** ** Where the data goes on a POSIX file system (lines 82-93) *)

Section Copy_of_a_pass.
Context `{Runtime}.

(** A pass of the loop body changes the file system only by a successful
    call of line 93, made for an existing source that was not skipped. *)
Lemma dispatch_file_fs (a : args) (h : host) (file : string) (c : counters)
    (w : world) :
  w_fs (dispatch_file a h (Some file) c w).2 = w_fs w ∨
  ((overwrite a = true ∨
    exists_ (w_fs w) (join (target_dir a) file) = false) ∧
   dry_run a = false ∧
   copy (join (source_dir a) file) (target_dir a) (w_fs w)
     = inr (w_fs (dispatch_file a h (Some file) c w).2)).
Proof.
  unfold_body.
  destruct (overwrite a) eqn:Hov; simpl;
    destruct (exists_ (w_fs w) (join (target_dir a) file)) eqn:Htgt; simpl;
    destruct (exists_ (w_fs w) (join (source_dir a) file)); simpl;
    try destruct (check_path_length h _) as [e | []]; simpl;
    destruct (quiet a), (dry_run a); simpl;
    try destruct (copy _ _ (w_fs w)) eqn:Hcopy; simpl; auto.
Qed.

Lemma dispatch_file_copied (a : args) (h : host) (file : string)
    (c c' : counters) (w : world) :
  dry_run a = false →
  (dispatch_file a h (Some file) c w).1 = inr (c', Copied) →
  copy (join (source_dir a) file) (target_dir a) (w_fs w)
    = inr (w_fs (dispatch_file a h (Some file) c w).2).
Proof.
  intros Hd. unfold_body. rewrite Hd.
  destruct (overwrite a); simpl;
    destruct (exists_ (w_fs w) (join (target_dir a) file)); simpl;
    destruct (exists_ (w_fs w) (join (source_dir a) file)); simpl;
    try destruct (check_path_length h _) as [e | []]; simpl;
    destruct (quiet a); simpl;
    try destruct (copy _ _ (w_fs w)) eqn:Hcopy; simpl;
    intros; simplify_eq; done.
Qed.

End Copy_of_a_pass.

Lemma node_at_insert_file (t : gmap (list string) node) (k cur : list string)
    (data : string) :
  node_at t k ≠ Some Dir →
  node_at (<[k := File data]> t) cur = Some Dir ↔ node_at t cur = Some Dir.
Proof.
  intros Hk. destruct cur as [| comp cur]; [done |]. simpl.
  destruct (decide (k = comp :: cur)) as [-> | Hne].
  - rewrite lookup_insert_eq. simpl in Hk. split; [discriminate | done].
  - by rewrite lookup_insert_ne.
Qed.

(** Writing a file where no directory stands leaves path resolution as
    it was. *)
Lemma walk_insert_file (t : gmap (list string) node) (k cur : list string)
    (data : string) (comps : list string) :
  node_at t k ≠ Some Dir →
  walk (<[k := File data]> t) cur comps = walk t cur comps.
Proof.
  intros Hk. revert cur. induction comps as [| comp comps IH]; intros cur;
    [done |].
  simpl. destruct (decide (node_at t cur = Some Dir)) as [Hold | Hold].
  - rewrite Hold, (proj2 (node_at_insert_file t k cur data Hk) Hold).
    apply IH.
  - assert (node_at (<[k := File data]> t) cur ≠ Some Dir) as Hnew
      by (by rewrite node_at_insert_file).
    destruct (node_at t cur) as [[] |],
      (node_at (<[k := File data]> t) cur) as [[] |]; done.
Qed.

Lemma posix_write_inr (s s' : posix_fs) (dst data : string) :
  posix_write s dst data = inr s' →
  ∃ k, resolve s dst = Some k ∧ node_at (nodes s) k ≠ Some Dir ∧
       s' = PosixFs (<[k := File data]> (nodes s)) (cwd s).
Proof.
  unfold posix_write. destruct (resolve s dst) as [k |]; [| discriminate].
  destruct (node_at (nodes s) k) as [[] |] eqn:Hk; intros [= <-];
    exists k; by rewrite ?Hk.
Qed.

Lemma resolve_after_write (s : posix_fs) (k : list string) (data p : string) :
  node_at (nodes s) k ≠ Some Dir →
  resolve (PosixFs (<[k := File data]> (nodes s)) (cwd s)) p = resolve s p.
Proof.
  intros Hk. unfold resolve. simpl. case_bool_decide; [done |].
  by apply walk_insert_file.
Qed.

(** What is written can be read back, under the name it was written
    to. *)
Lemma posix_write_read_back (s s' : posix_fs) (dst data : string) :
  posix_write s dst data = inr s' → stat s' dst = Some (File data).
Proof.
  intros (k & Hres & Hk & ->)%posix_write_inr. unfold stat.
  rewrite resolve_after_write, Hres by done. simpl.
  destruct k as [| comp k]; [done |]. simpl. apply lookup_insert_eq.
Qed.

(** Writing a file under a name that did not exist changes nothing that
    existed. *)
Lemma posix_write_frame (s s' : posix_fs) (dst data p : string) :
  posix_write s dst data = inr s' →
  stat s dst = None → stat s p ≠ None → stat s' p = stat s p.
Proof.
  intros (k & Hres & Hk & ->)%posix_write_inr Hnew Hp. unfold stat in *.
  rewrite resolve_after_write by done. rewrite Hres in Hnew.
  destruct (resolve s p) as [k' |]; [| done]. simpl.
  destruct k' as [| comp k']; [done |]. simpl in *.
  destruct (decide (k = comp :: k')) as [-> | Hne].
  - simpl in Hnew. by rewrite Hnew in Hp.
  - by rewrite lookup_insert_ne.
Qed.

Lemma shutil_copyfile_inr (src dst : string) (s s' : posix_fs) :
  shutil_copyfile src dst s = inr s' →
  ∃ data, stat s src = Some (File data) ∧ posix_write s dst data = inr s'.
Proof.
  unfold shutil_copyfile, posix_open_read.
  destruct (posix_samefile s src dst); [discriminate |].
  destruct (stat s src) as [[data |] |]; try discriminate.
  intros Hw. by exists data.
Qed.

(** X16: on a POSIX file system, when the target directory is a
    directory and the filename has no slash, a pass without [--dry-run]
    that counts the filename as copied leaves, at the filename's path in
    the target directory, a file with the data of the source file. *)
Theorem X16_copied_file_has_the_source_data (a : args) (h : host)
    (file : string) (c c' : counters) (w : world) :
  dry_run a = false →
  posix_isdir (w_fs w) (target_dir a) = true →
  contains "/" file = false →
  (dispatch_file a h (Some file) c w).1 = inr (c', Copied) →
  ∃ data,
    stat (w_fs w) (posixpath.join (source_dir a) file) = Some (File data) ∧
    stat (w_fs (dispatch_file a h (Some file) c w).2)
         (posixpath.join (target_dir a) file) = Some (File data).
Proof.
  intros Hd Hdir Hplain Hrun.
  pose proof (dispatch_file_copied a h file c c' w Hd Hrun) as Hcopy.
  simpl in Hcopy. rewrite plain_name_is_kept in Hcopy by done.
  apply shutil_copyfile_inr in Hcopy as (data & Hsrc & Hwrite).
  exists data. split; [done |]. by eapply posix_write_read_back.
Qed.

(** X17: on a POSIX file system, when the target directory is a directory
    and the filename has no slash, a pass without [--overwrite] changes no
    file or directory that existed before it, however it ends. *)
Theorem X17_existing_files_are_kept_without_overwrite (a : args) (h : host)
    (file : string) (c : counters) (w : world) (p : string) :
  overwrite a = false →
  posix_isdir (w_fs w) (target_dir a) = true →
  contains "/" file = false →
  stat (w_fs w) p ≠ None →
  stat (w_fs (dispatch_file a h (Some file) c w).2) p = stat (w_fs w) p.
Proof.
  intros Hov Hdir Hplain Hp.
  destruct (dispatch_file_fs a h file c w) as [-> | ([Hov' | Htgt] & _ & Hcopy)];
    [done | congruence |].
  simpl in Hcopy, Htgt. rewrite plain_name_is_kept in Hcopy by done.
  apply shutil_copyfile_inr in Hcopy as (data & _ & Hwrite).
  eapply posix_write_frame; [done | | done].
  unfold posix_exists in Htgt. apply bool_decide_eq_false in Htgt.
  destruct (stat (w_fs w) (posixpath.join (target_dir a) file)); [| done].
  exfalso. apply Htgt. by eexists.
Qed.

Lemma X16_witness :
  ∃ data,
    stat (w_fs (start site_taken)) (posixpath.join "src" "b.txt")
      = Some (File data) ∧
    stat (w_fs (dispatch_file (plain_args false false) linux (Some "b.txt")
                  (Counters 0 0 0 0) (start site_taken)).2)
         (posixpath.join "tgt" "b.txt") = Some (File data).
Proof.
  apply (X16_copied_file_has_the_source_data (plain_args false false) linux
           "b.txt" (Counters 0 0 0 0) (Counters 1 0 0 0) (start site_taken));
    vm_compute; reflexivity.
Defined.

Lemma X17_witness :
  stat (w_fs (dispatch_file (plain_args false false) linux (Some "b.txt")
                (Counters 0 0 0 0) (start site_taken)).2) "tgt/a.txt"
    = stat (w_fs (start site_taken)) "tgt/a.txt".
Proof.
  apply (X17_existing_files_are_kept_without_overwrite
           (plain_args false false) linux "b.txt" (Counters 0 0 0 0)
           (start site_taken) "tgt/a.txt");
    try (vm_compute; reflexivity).
  vm_compute. discriminate.
Defined.

(** * The empty filename (lines 69-106) *)



